(** * wayland-cursor: shared-memory pool, cursor themes and frame selection

    A shallow embedding of [cursor/wayland-cursor.c].  Machine integers are
    integers of [Z] with the wrap-around of the C types written out; the
    operating system and the Wayland client library are an oracle plus an
    event log; undefined behaviour of the C program (out-of-bounds access,
    null dereference, division by zero) is the result [Fault]. *)

From Stdlib Require Import ZArith String List Bool Lia.
From Stdlib.Strings Require Import Byte.
Import ListNotations.
Local Open Scope Z_scope.

(** ** Machine integers *)

Module Int.

Definition modulus : Z := 2 ^ 32.
Definition INT_MAX : Z := 2 ^ 31 - 1.

(** Value of an expression of type [unsigned int] / [uint32_t]. *)
Definition wrap32 (x : Z) : Z := x mod modulus.

(** Conversion of a 32-bit pattern to [int] (two's complement). *)
Definition to_int (x : Z) : Z :=
  if wrap32 x <=? INT_MAX then wrap32 x else wrap32 x - modulus.

Definition is_uint (x : Z) : Prop := 0 <= x < modulus.
Definition is_int (x : Z) : Prop := - 2 ^ 31 <= x <= INT_MAX.

End Int.
Import Int.

(** ** Data model *)

(** A handle of the client library ([struct wl_buffer *], [struct
    wl_shm_pool *]); [NULL] is 0. *)
Definition handle : Type := Z.
Definition NULL : handle := 0.

(** What [pool->data] holds: the address of a mapping of [len] bytes of the
    pool's file, or [MAP_FAILED]. *)
Inductive mapping : Type :=
| Mapped (len : Z)
| MAP_FAILED.

(** [struct shm_pool]: [size] and [used] are [unsigned int]. *)
Record shm_pool : Type := {
  pool : handle;
  fd : Z;
  size : Z;
  used : Z;
  data : mapping
}.

(** [struct wl_cursor_image] of wayland-cursor.h: all fields are [uint32_t]. *)
Record wl_cursor_image : Type := {
  width : Z;
  height : Z;
  hotspot_x : Z;
  hotspot_y : Z;
  delay : Z
}.

(** [struct cursor_image].  The back pointer [theme] is left out: every
    function that follows it receives the theme as an argument. *)
Record cursor_image : Type := {
  image : wl_cursor_image;
  buffer : handle;
  offset : Z
}.

(** [struct cursor], with the embedded [struct wl_cursor] flattened.
    [images] is the heap array and [image_count] its length; [name] is what
    [strdup] returned, [None] for a null pointer. *)
Record cursor : Type := {
  images : list cursor_image;
  name : option string;
  total_delay : Z
}.

Definition image_count (c : cursor) : Z := Z.of_nat (length (images c)).

(** [struct wl_cursor_theme].  [cursors] is the array of cursor pointers, a
    null pointer being [None], and [cursor_count] its length; [theme_pool]
    is the pool object [pool] points to.  The field [shm] is never written
    nor read by this file. *)
Record wl_cursor_theme : Type := {
  cursors : list (option cursor);
  theme_pool : shm_pool;
  theme_name : option string;
  theme_size : Z
}.

(** [XcursorImage] and [XcursorImages] of xcursor.h, as far as this file
    reads them; [nimage] is the length of the image array. *)
Record XcursorImage : Type := {
  xwidth : Z;
  xheight : Z;
  xhot : Z;
  yhot : Z;
  xdelay : Z;
  pixels : list byte
}.

Record XcursorImages : Type := {
  ximages : list XcursorImage;
  xname : string
}.

Definition cursor_count (theme : wl_cursor_theme) : Z :=
  Z.of_nat (length (cursors theme)).

Definition nimage (images : XcursorImages) : Z :=
  Z.of_nat (length (ximages images)).

(** [struct cursor_metadata] of cursor-data.h; [moffset] counts 32-bit words
    of [cursor_data]. *)
Record cursor_metadata : Type := {
  mname : string;
  mwidth : Z;
  mheight : Z;
  mhotspot_x : Z;
  mhotspot_y : Z;
  moffset : Z
}.

(** ** The world outside the program *)

(** Calls that leave the program, in the order they were made. *)
Inductive event : Type :=
| EvMalloc (ok : bool)
| EvCreateFile (len : Z) (fd : Z)
| EvFtruncate (len : Z) (ok : bool)
| EvMmap (len : Z) (ok : bool)
| EvMunmap (len : Z)
| EvClose (fd : Z)
| EvShmCreatePool (fd : Z) (len : Z) (h : handle)
| EvShmPoolResize (h : handle) (len : Z)
| EvShmPoolCreateBuffer (h : handle) (off w ht stride format : Z)
    (b : handle).

(** What the program cannot decide: whether an allocation or a system call
    succeeds, which handle the client library returns, what the theme loader
    finds on disk, and the table of cursor-data.h (not part of the sources
    at hand).  Each answer may depend on the calls made so far. *)
Record environment : Type := {
  malloc_ok : list event -> bool;
  anonymous_file_fd : list event -> Z -> Z;
  ftruncate_ok : list event -> Z -> bool;
  mmap_ok : list event -> Z -> bool;
  new_shm_pool : list event -> handle;
  new_buffer : list event -> handle;
  xcursor_files : string -> Z -> list XcursorImages;
  cursor_metadata_table : list cursor_metadata;
  cursor_data : list byte
}.

(** What happened to the bytes of a file of zeros: the bytes from position
    [len] on were cut off, or [bytes] were written from position [off]
    on. *)
Inductive file_op : Type :=
| FileCut (len : Z)
| FileWrite (off : Z) (bytes : list byte).

(** The byte at position [i] after the operations [ops], latest first. *)
Fixpoint byte_of (ops : list file_op) (i : Z) : byte :=
  match ops with
  | [] => x00
  | FileCut len :: ops' => if i <? len then byte_of ops' i else x00
  | FileWrite off bytes :: ops' =>
      if (off <=? i) && (i <? off + Z.of_nat (length bytes))
      then nth (Z.to_nat (i - off)) bytes x00
      else byte_of ops' i
  end.

(** The anonymous file behind the pool and the log.  The file is sparse and
    possibly large: it is kept as its length and the operations on its
    bytes, latest first. *)
Record world : Type := {
  file_len : Z;
  file_ops : list file_op;
  log : list event
}.

Definition file_byte (w : world) (i : Z) : byte := byte_of (file_ops w) i.

Definition set_file (w : world) (len : Z) (ops : list file_op) : world :=
  {| file_len := len; file_ops := ops; log := log w |}.

(** The byte at position [i] of the file, if the file is that long. *)
Definition file_at (w : world) (i : Z) : option byte :=
  if (0 <=? i) && (i <? file_len w) then Some (file_byte w i) else None.

(** ** Results of running C code *)

Inductive fault : Type :=
| DivisionByZero
| OutOfBounds
| NullDereference
| SignedOverflow.

Inductive result (A : Type) : Type :=
| Ok (a : A)
| Fault (why : fault).
Arguments Ok {A} a.
Arguments Fault {A} why.

(** A computation reads and updates the world, or faults. *)
Definition M (A : Type) : Type := world -> result (A * world).

Definition ret {A} (a : A) : M A := fun w => Ok (a, w).

Definition bind {A B} (m : M A) (k : A -> M B) : M B :=
  fun w => match m w with
           | Ok (a, w') => k a w'
           | Fault why => Fault why
           end.

Definition fail {A} (why : fault) : M A := fun _ => Fault why.

Declare Scope cmd_scope.
Delimit Scope cmd_scope with cmd.
Notation "x <- c ;; k" := (bind c (fun x => k))
  (at level 100, c at next level, right associativity) : cmd_scope.
Notation "c ;;; k" := (bind c (fun _ => k))
  (at level 100, right associativity) : cmd_scope.
Local Open Scope cmd_scope.

Definition emit (e : event) : M unit :=
  fun w => Ok (tt, {| file_len := file_len w; file_ops := file_ops w;
                      log := log w ++ [e] |}).

Definition ask {A} (f : list event -> A) : M A :=
  fun w => Ok (f (log w), w).

(** ** System calls and library calls *)

Section Program.

Variable E : environment.

Definition malloc : M bool :=
  ok <- ask (malloc_ok E) ;;
  emit (EvMalloc ok) ;;;
  ret ok.

(** [strdup]: a copy of the string, or [NULL] when memory is short. *)
Definition strdup (s : string) : M (option string) :=
  ok <- malloc ;;
  ret (if ok then Some s else None).

(** The bytes of a file of [old] bytes cut or extended with zero bytes to
    [len] bytes. *)
Definition resize_bytes (old len : Z) (ops : list file_op) : list file_op :=
  FileCut (Z.min old len) :: ops.

(** Modelled from the spec: [os_create_anonymous_file] of os-compatibility.c
    is not among the sources.  It returns the descriptor of a fresh file of
    [len] zero bytes (the backing file, whose length is the capacity), or a
    negative number; a negative length is refused. *)
Definition os_create_anonymous_file (len : Z) : M Z :=
  d <- ask (fun l => anonymous_file_fd E l len) ;;
  let d := if (len <? 0) || (d <? 0) then -1 else d in
  emit (EvCreateFile len d) ;;;
  fun w => Ok (d, if d <? 0 then w else set_file w len []).

(** [ftruncate(fd, len)]: [true] stands for the return value 0.  A negative
    length is refused with [EINVAL]. *)
Definition ftruncate (d : Z) (len : Z) : M bool :=
  ok <- ask (fun l => (0 <=? len) && ftruncate_ok E l len) ;;
  emit (EvFtruncate len ok) ;;;
  fun w => Ok (ok, if ok
                   then set_file w len
                          (resize_bytes (file_len w) len (file_ops w))
                   else w).

Definition mmap (len : Z) : M mapping :=
  ok <- ask (fun l => mmap_ok E l len) ;;
  emit (EvMmap len ok) ;;;
  ret (if ok then Mapped len else MAP_FAILED).

Definition munmap (len : Z) : M unit := emit (EvMunmap len).

Definition close (d : Z) : M unit := emit (EvClose d).

Definition wl_shm_create_pool (d : Z) (len : Z) : M handle :=
  h <- ask (new_shm_pool E) ;;
  emit (EvShmCreatePool d len h) ;;;
  ret h.

Definition wl_shm_pool_resize (h : handle) (len : Z) : M unit :=
  emit (EvShmPoolResize h len).

Definition WL_SHM_FORMAT_ARGB8888 : Z := 0.

Definition wl_shm_pool_create_buffer (h : handle)
    (off w ht stride format : Z) : M handle :=
  b <- ask (new_buffer E) ;;
  emit (EvShmPoolCreateBuffer h off w ht stride format b) ;;;
  ret b.

(** [memcpy(pool->data + off, src, n)], [n] being converted to [size_t].
    The destination has to lie inside the mapping and inside the file, the
    source has to hold [n] bytes. *)
Definition memcpy_to_pool (p : shm_pool) (off : Z) (src : list byte)
    (n : Z) : M unit :=
  fun w =>
    match data p with
    | MAP_FAILED => Fault OutOfBounds
    | Mapped len =>
        if (0 <=? off) && (0 <=? n) && (off + n <=? len)
           && (off + n <=? file_len w)
           && (n <=? Z.of_nat (length src))
        then Ok (tt, set_file w (file_len w)
                       (FileWrite off (firstn (Z.to_nat n) src)
                          :: file_ops w))
        else Fault OutOfBounds
    end.

(** ** The pool *)

Definition shm_pool_create (sz : Z) : M (option shm_pool) :=
  ok <- malloc ;;
  if negb ok then ret None else
  d <- os_create_anonymous_file sz ;;
  if d <? 0 then ret None else
  m <- mmap sz ;;
  match m with
  | MAP_FAILED => close d ;;; ret None
  | Mapped _ =>
      h <- wl_shm_create_pool d sz ;;
      ret (Some {| pool := h; fd := d; size := wrap32 sz; used := 0;
                   data := m |})
  end.

(** Returns the [int] result together with the pool as it is afterwards. *)
Definition shm_pool_resize (p : shm_pool) (sz : Z) : M (Z * shm_pool) :=
  ok <- ftruncate (fd p) sz ;;
  if negb ok then ret (0, p) else
  wl_shm_pool_resize (pool p) sz ;;;
  munmap (size p) ;;;
  m <- mmap sz ;;
  ret (1, {| pool := pool p; fd := fd p; size := wrap32 sz; used := used p;
             data := m |}).

Definition bump (p : shm_pool) (sz : Z) : Z * shm_pool :=
  (to_int (used p),
   {| pool := pool p; fd := fd p; size := size p;
      used := wrap32 (used p + sz); data := data p |}).

Definition shm_pool_allocate (p : shm_pool) (sz : Z) : M (Z * shm_pool) :=
  if wrap32 (used p + sz) >? size p then
    r <- shm_pool_resize p (to_int (2 * size p + sz)) ;;
    if fst r =? 0 then ret (-1, snd r) else ret (bump (snd r) sz)
  else ret (bump p sz).

(** ** Cursor images *)

Definition set_pool (theme : wl_cursor_theme) (p : shm_pool)
    : wl_cursor_theme :=
  {| cursors := cursors theme; theme_pool := p;
     theme_name := theme_name theme; theme_size := theme_size theme |}.

Definition set_cursors (theme : wl_cursor_theme)
    (cs : list (option cursor)) : wl_cursor_theme :=
  {| cursors := cs; theme_pool := theme_pool theme;
     theme_name := theme_name theme; theme_size := theme_size theme |}.

Definition set_buffer (img : cursor_image) (b : handle) : cursor_image :=
  {| image := image img; buffer := b; offset := offset img |}.

(** Returns the buffer and the image object as it is after the call. *)
Definition wl_cursor_image_get_buffer (theme : wl_cursor_theme)
    (img : cursor_image) : M (handle * cursor_image) :=
  if buffer img =? NULL then
    b <- wl_shm_pool_create_buffer (pool (theme_pool theme))
           (offset img)
           (to_int (width (image img))) (to_int (height (image img)))
           (to_int (width (image img) * 4))
           WL_SHM_FORMAT_ARGB8888 ;;
    ret (b, set_buffer img b)
  else ret (buffer img, img).

(** ** Building cursors *)

(** The fields [wl_cursor_create_from_xcursor_images] copies from an
    [XcursorImage] into [image->image]. *)
Definition xcursor_frame (x : XcursorImage) : wl_cursor_image :=
  {| width := xwidth x; height := xheight x;
     hotspot_x := xhot x; hotspot_y := yhot x;
     delay := xdelay x |}.

(** One round of the [for] loop of [wl_cursor_create_from_xcursor_images]
    for each image left; [done] and [total] are the slots filled and the
    [total_delay] so far. *)
Fixpoint xcursor_images_loop (todo : list XcursorImage)
    (theme : wl_cursor_theme) (done : list cursor_image) (total : Z)
    : M (list cursor_image * Z * wl_cursor_theme) :=
  match todo with
  | [] => ret (done, total, theme)
  | x :: todo' =>
      ok <- malloc ;;
      if negb ok then fail NullDereference else
      let im := xcursor_frame x in
      let total' := wrap32 (total + delay im) in
      let sz := to_int (width im * height im * 4) in
      r <- shm_pool_allocate (theme_pool theme) sz ;;
      memcpy_to_pool (snd r) (fst r) (pixels x) sz ;;;
      xcursor_images_loop todo' (set_pool theme (snd r))
        (done ++ [{| image := im; buffer := NULL; offset := fst r |}])
        total'
  end.

Definition wl_cursor_create_from_xcursor_images (images : XcursorImages)
    (theme : wl_cursor_theme) : M (option cursor * wl_cursor_theme) :=
  ok <- malloc ;;
  if negb ok then ret (None, theme) else
  ok <- malloc ;;
  if negb ok then ret (None, theme) else
  nm <- strdup (xname images) ;;
  r <- xcursor_images_loop (ximages images) theme [] 0 ;;
  ret (Some {| images := fst (fst r); name := nm;
               total_delay := snd (fst r) |}, snd r).

Definition wl_cursor_create_from_data (metadata : cursor_metadata)
    (theme : wl_cursor_theme) : M (option cursor * wl_cursor_theme) :=
  ok <- malloc ;;
  if negb ok then ret (None, theme) else
  ok <- malloc ;;
  if negb ok then ret (None, theme) else
  nm <- strdup (mname metadata) ;;
  ok <- malloc ;;
  if negb ok then ret (None, theme) else
  let im := {| width := wrap32 (mwidth metadata);
               height := wrap32 (mheight metadata);
               hotspot_x := wrap32 (mhotspot_x metadata);
               hotspot_y := wrap32 (mhotspot_y metadata);
               delay := 0 |} in
  let sz := to_int (mwidth metadata * mheight metadata * 4) in
  r <- shm_pool_allocate (theme_pool theme) sz ;;
  memcpy_to_pool (snd r) (fst r)
    (skipn (Z.to_nat (4 * moffset metadata)) (cursor_data E)) sz ;;;
  ret (Some {| images := [{| image := im; buffer := NULL;
                             offset := fst r |}];
               name := nm; total_delay := 0 |}, set_pool theme (snd r)).

(** The [for] loop of [load_default_theme]; [array_ok] tells whether the
    [malloc] of the array returned memory. *)
Fixpoint default_theme_loop (table : list cursor_metadata) (array_ok : bool)
    (theme : wl_cursor_theme) : M wl_cursor_theme :=
  match table with
  | [] => ret theme
  | metadata :: table' =>
      r <- wl_cursor_create_from_data metadata theme ;;
      if negb array_ok then fail NullDereference else
      default_theme_loop table' array_ok
        (set_cursors (snd r) (cursors (snd r) ++ [fst r]))
  end.

Definition load_default_theme (theme : wl_cursor_theme)
    : M wl_cursor_theme :=
  nm <- strdup "default" ;;
  array_ok <- malloc ;;
  default_theme_loop (cursor_metadata_table E) array_ok
    {| cursors := []; theme_pool := theme_pool theme;
       theme_name := nm; theme_size := theme_size theme |}.

(** ** Themes *)

(** The loop of [wl_cursor_theme_get_cursor] on the part of the array that
    is left; [strcmp] reads both names. *)
Fixpoint get_cursor_loop (rest : list (option cursor)) (nm : string)
    : result (option cursor) :=
  match rest with
  | [] => Ok None
  | None :: _ => Fault NullDereference
  | Some c :: rest' =>
      match name c with
      | None => Fault NullDereference
      | Some s => if String.eqb nm s then Ok (Some c)
                  else get_cursor_loop rest' nm
      end
  end.

Definition wl_cursor_theme_get_cursor (theme : wl_cursor_theme)
    (nm : string) : result (option cursor) :=
  get_cursor_loop (cursors theme) nm.

Definition pure {A} (r : result A) : M A :=
  fun w => match r with
           | Ok a => Ok (a, w)
           | Fault why => Fault why
           end.

Definition load_callback (images : XcursorImages) (theme : wl_cursor_theme)
    : M wl_cursor_theme :=
  found <- pure (wl_cursor_theme_get_cursor theme (xname images)) ;;
  match found with
  | Some _ => ret theme
  | None =>
      r <- wl_cursor_create_from_xcursor_images images theme ;;
      match fst r with
      | Some c =>
          ok <- malloc ;;
          if negb ok then fail NullDereference else
          ret (set_cursors (snd r) (cursors (snd r) ++ [Some c]))
      | None => ret (snd r)
      end
  end.

(** Modelled from the spec: [xcursor_load_theme] of xcursor.c is not among
    the sources.  The loader is invoked with a theme name and a size and
    calls back once per cursor it discovers, zero or more times; [found] is
    what it discovers, in order. *)
Fixpoint xcursor_load_theme (found : list XcursorImages)
    (theme : wl_cursor_theme) : M wl_cursor_theme :=
  match found with
  | [] => ret theme
  | images :: found' =>
      theme' <- load_callback images theme ;;
      xcursor_load_theme found' theme'
  end.

Definition wl_cursor_theme_load (nm : option string) (sz : Z)
    : M (option wl_cursor_theme) :=
  ok <- malloc ;;
  if negb ok then ret None else
  let nm := match nm with Some s => s | None => "default"%string end in
  tn <- strdup nm ;;
  if negb ((- 2 ^ 31 <=? sz * sz) && (sz * sz <=? INT_MAX)
           && (- 2 ^ 31 <=? sz * sz * 4) && (sz * sz * 4 <=? INT_MAX))
  then fail SignedOverflow else
  p <- shm_pool_create (sz * sz * 4) ;;
  match p with
  | None => ret None
  | Some p =>
      theme <- xcursor_load_theme (xcursor_files E nm sz)
                 {| cursors := []; theme_pool := p; theme_name := tn;
                    theme_size := sz |} ;;
      if cursor_count theme =? 0
      then theme' <- load_default_theme theme ;; ret (Some theme')
      else ret (Some theme)
  end.

End Program.

(** ** Frame selection *)

Definition frame_delay (img : cursor_image) : Z := delay (image img).

(** The loop of [wl_cursor_frame],
    [while (t - images[i]->delay < t) t -= images[i++]->delay;],
    on the part of the array that starts at index [i].  Reading past the
    array is a fault. *)
Fixpoint frame_loop (rest : list cursor_image) (i t : Z) : result Z :=
  match rest with
  | [] => Fault OutOfBounds
  | img :: rest' =>
      if wrap32 (t - frame_delay img) <? t
      then frame_loop rest' (i + 1) (wrap32 (t - frame_delay img))
      else Ok i
  end.

Definition wl_cursor_frame (c : cursor) (time : Z) : result Z :=
  if image_count c =? 1 then Ok 0
  else if total_delay c =? 0 then Fault DivisionByZero
  else frame_loop (images c) 0 (time mod total_delay c).

(** ** The frame selector as the specification words it *)

(** Accumulate [cum]; for each frame [i], if [t < cum + delay i] return
    [i], else add the delay to [cum]. *)
Fixpoint spec_frame_walk (delays : list Z) (i cum t : Z) : option Z :=
  match delays with
  | [] => None
  | d :: delays' =>
      if t <? cum + d then Some i
      else spec_frame_walk delays' (i + 1) (cum + d) t
  end.

Definition spec_frame_at (c : cursor) (elapsed_ms : Z) : option Z :=
  spec_frame_walk (map frame_delay (images c)) 0 0
    (elapsed_ms mod total_delay c).

(** ** Cursors the program builds *)

Definition sum_delays (imgs : list cursor_image) : Z :=
  fold_right Z.add 0 (map frame_delay imgs).

(** What holds of every [struct cursor] this file allocates: the delays are
    [uint32_t] values and [total_delay] is their sum in [uint32_t]. *)
Definition cursor_wf (c : cursor) : Prop :=
  Forall (fun img => is_uint (frame_delay img)) (images c)
  /\ total_delay c = wrap32 (sum_delays (images c)).

Definition xcursor_wf (images : XcursorImages) : Prop :=
  Forall (fun x => is_uint (xdelay x)) (ximages images).

(** [struct cursor] is private to the file: a cursor comes from one of its
    two constructors. *)
Inductive built_cursor (E : environment) : cursor -> Prop :=
| built_from_xcursor images theme w c theme' w' :
    xcursor_wf images ->
    wl_cursor_create_from_xcursor_images E images theme w
      = Ok ((Some c, theme'), w') ->
    built_cursor E c
| built_from_data metadata theme w c theme' w' :
    wl_cursor_create_from_data E metadata theme w
      = Ok ((Some c, theme'), w') ->
    built_cursor E c.

(** ** Sequences of allocations *)

(** The allocations of a list of sizes one after the other; the offsets
    returned, in order, and the pool at the end. *)
Fixpoint allocate_all (E : environment) (p : shm_pool) (sizes : list Z)
    : M (list Z * shm_pool) :=
  match sizes with
  | [] => ret ([], p)
  | s :: sizes' =>
      r <- shm_pool_allocate E p s ;;
      r' <- allocate_all E (snd r) sizes' ;;
      ret (fst r :: fst r', snd r')
  end.

(** The capacity the growth rule asks for, computed without a word size:
    starting from capacity [cap] with [used] bytes handed out, an
    allocation that does not fit replaces the capacity by twice the
    capacity plus the size. *)
Fixpoint spec_capacity (cap used : Z) (sizes : list Z) : Z :=
  match sizes with
  | [] => cap
  | s :: sizes' =>
      if used + s >? cap then spec_capacity (2 * cap + s) (used + s) sizes'
      else spec_capacity cap (used + s) sizes'
  end.

Definition total (sizes : list Z) : Z := fold_right Z.add 0 sizes.

(** The offsets a bump allocator returns from [start] on. *)
Fixpoint bump_offsets (start : Z) (sizes : list Z) : list Z :=
  match sizes with
  | [] => []
  | s :: sizes' => start :: bump_offsets (start + s) sizes'
  end.

(** The ranges [[o1, o1 + s1)] and [[o2, o2 + s2)] do not meet. *)
Definition ranges_disjoint (o1 s1 o2 s2 : Z) : Prop :=
  o1 + s1 <= o2 \/ o2 + s2 <= o1.

(** The number of resize requests sent to the compositor. *)
Definition resize_requests (l : list event) : nat :=
  length (filter (fun e => match e with
                           | EvShmPoolResize _ _ => true
                           | _ => false
                           end) l).

(** The number of buffer creation requests. *)
Definition creation_requests (l : list event) : nat :=
  length (filter (fun e => match e with
                           | EvShmPoolCreateBuffer _ _ _ _ _ _ _ => true
                           | _ => false
                           end) l).

Definition pool_ok (p : shm_pool) : Prop :=
  0 <= used p <= size p /\ size p <= INT_MAX.

(** ** Environments and inputs of the examples *)

(** An environment in which nothing fails and nothing is installed. *)
Definition friendly : environment :=
  {| malloc_ok := fun _ => true;
     anonymous_file_fd := fun _ _ => 3;
     ftruncate_ok := fun _ _ => true;
     mmap_ok := fun _ _ => true;
     new_shm_pool := fun l => 1 + Z.of_nat (length l);
     new_buffer := fun l => 1 + Z.of_nat (length l);
     xcursor_files := fun _ _ => [];
     cursor_metadata_table := [];
     cursor_data := [] |}.

Definition with_files (E : environment) (found : list XcursorImages)
    : environment :=
  {| malloc_ok := malloc_ok E;
     anonymous_file_fd := anonymous_file_fd E;
     ftruncate_ok := ftruncate_ok E;
     mmap_ok := mmap_ok E;
     new_shm_pool := new_shm_pool E;
     new_buffer := new_buffer E;
     xcursor_files := fun _ _ => found;
     cursor_metadata_table := cursor_metadata_table E;
     cursor_data := cursor_data E |}.

Definition with_ftruncate (E : environment) (f : list event -> Z -> bool)
    : environment :=
  {| malloc_ok := malloc_ok E;
     anonymous_file_fd := anonymous_file_fd E;
     ftruncate_ok := f;
     mmap_ok := mmap_ok E;
     new_shm_pool := new_shm_pool E;
     new_buffer := new_buffer E;
     xcursor_files := xcursor_files E;
     cursor_metadata_table := cursor_metadata_table E;
     cursor_data := cursor_data E |}.

Definition with_malloc (E : environment) (f : list event -> bool)
    : environment :=
  {| malloc_ok := f;
     anonymous_file_fd := anonymous_file_fd E;
     ftruncate_ok := ftruncate_ok E;
     mmap_ok := mmap_ok E;
     new_shm_pool := new_shm_pool E;
     new_buffer := new_buffer E;
     xcursor_files := xcursor_files E;
     cursor_metadata_table := cursor_metadata_table E;
     cursor_data := cursor_data E |}.

Definition with_new_buffer (E : environment) (f : list event -> handle)
    : environment :=
  {| malloc_ok := malloc_ok E;
     anonymous_file_fd := anonymous_file_fd E;
     ftruncate_ok := ftruncate_ok E;
     mmap_ok := mmap_ok E;
     new_shm_pool := new_shm_pool E;
     new_buffer := f;
     xcursor_files := xcursor_files E;
     cursor_metadata_table := cursor_metadata_table E;
     cursor_data := cursor_data E |}.

Definition empty_world : world :=
  {| file_len := 0; file_ops := []; log := [] |}.

(** A pool of [cap] bytes of which [u] are handed out, and the world in
    which its file has [cap] zero bytes. *)
Definition pool_of (cap u : Z) : shm_pool :=
  {| pool := 1; fd := 3; size := cap; used := u; data := Mapped cap |}.

Definition world_of (cap : Z) : world :=
  {| file_len := cap; file_ops := []; log := [] |}.

(** A one-pixel frame shown for [d] milliseconds, as the loader reports it
    and as the cursor holds it. *)
Definition xframe (d : Z) : XcursorImage :=
  {| xwidth := 1; xheight := 1; xhot := 0; yhot := 0; xdelay := d;
     pixels := [x01; x02; x03; x04] |}.

Definition frame (d off : Z) : cursor_image :=
  {| image := xcursor_frame (xframe d); buffer := NULL; offset := off |}.

(** A theme without cursors on a pool of [cap] bytes. *)
Definition empty_theme (cap : Z) : wl_cursor_theme :=
  {| cursors := []; theme_pool := pool_of cap 0;
     theme_name := Some "t"%string; theme_size := 1 |}.

(** [n] calls of [wl_cursor_image_get_buffer] on one image object; the
    buffers returned, in order, and the image at the end. *)
Fixpoint get_buffer_calls (E : environment) (theme : wl_cursor_theme)
    (img : cursor_image) (n : nat) : M (list handle * cursor_image) :=
  match n with
  | O => ret ([], img)
  | S n' =>
      r <- wl_cursor_image_get_buffer E theme img ;;
      r' <- get_buffer_calls E theme (snd r) n' ;;
      ret (fst r :: fst r', snd r')
  end.

(** Reports of the loader used in the examples. *)
Definition report (nm : string) (delays : list Z) : XcursorImages :=
  {| ximages := map xframe delays; xname := nm |}.

(** A frame of two by two pixels. *)
Definition big_xframe : XcursorImage :=
  {| xwidth := 2; xheight := 2; xhot := 0; yhot := 0; xdelay := 0;
     pixels := repeat xff 16 |}.

(** The entries of a cursor array whose cursor has the name [nm]. *)
Definition has_name (nm : string) (entry : option cursor) : bool :=
  match entry with
  | Some c => match name c with
              | Some s => String.eqb nm s
              | None => false
              end
  | None => false
  end.

Definition named (nm : string) (entries : list (option cursor))
    : list (option cursor) :=
  filter (has_name nm) entries.

(** [malloc] fails at its call number [n] (counted from 0) and at no
    other. *)
Definition malloc_fails_at (n : nat) (l : list event) : bool :=
  negb (Nat.eqb n
          (length (filter (fun e => match e with
                                    | EvMalloc _ => true
                                    | _ => false
                                    end) l))).

(** The sum of the delays the loader reports, and the [total_delay] the
    loop of [wl_cursor_create_from_xcursor_images] reaches from [tot]. *)
Definition sum_xdelays (xs : list XcursorImage) : Z :=
  fold_right Z.add 0 (map xdelay xs).

Definition loop_total (tot : Z) (todo : list XcursorImage) : Z :=
  fold_left (fun acc x => wrap32 (acc + xdelay x)) todo tot.

(** The client library returns no buffer at the first creation request and
    the buffer 7 afterwards. *)
Definition null_at_first (l : list event) : handle :=
  if Nat.eqb (creation_requests l) 0 then NULL else 7.

(** An environment in which the file of the pool cannot grow. *)
Definition no_growth : environment :=
  with_ftruncate friendly (fun _ _ => false).

(** A cursor of one frame of 70 milliseconds, with the [total_delay] the
    constructor gives it. *)
Definition one_frame : cursor :=
  {| images := [frame 70 0]; name := Some "arrow"%string;
     total_delay := 70 |}.

(** The cursor built from frames of 100, 200 and 150 milliseconds. *)
Definition three_frames : cursor :=
  {| images := [frame 100 0; frame 200 4; frame 150 8];
     name := Some "wait"%string; total_delay := 450 |}.

(** The same cursor after [wl_cursor_image_get_buffer] stored the buffer 7
    in its second image. *)
Definition three_frames_shown : cursor :=
  {| images := [frame 100 0; set_buffer (frame 200 4) 7; frame 150 8];
     name := Some "wait"%string; total_delay := 450 |}.

(** * Pool layout and teardown *)

(** ** Ranges of the pool *)

(** The number of bytes [wl_cursor_create_from_xcursor_images] allocates
    and copies for an image of the loader: [width * height * 4] as an
    [int]. *)
Definition frame_size (x : XcursorImage) : Z :=
  to_int (xwidth x * xheight x * 4).

(** The same number from the fields the cursor image keeps. *)
Definition image_size (img : cursor_image) : Z :=
  to_int (width (image img) * height (image img) * 4).

(** What the code relies on between two calls: [used] is within the
    capacity, the capacity is an [int], and [data] is either [MAP_FAILED] or
    a mapping of the whole capacity. *)
Definition pool_inv (p : shm_pool) : Prop :=
  pool_ok p /\ (data p = MAP_FAILED \/ data p = Mapped (size p)).

(** The byte ranges of the images of a cursor and of a cursor array, in
    array order. *)
Definition cursor_ranges (c : cursor) : list (Z * Z) :=
  map (fun img => (offset img, image_size img)) (images c).

Definition theme_ranges (entries : list (option cursor)) : list (Z * Z) :=
  flat_map (fun entry => match entry with
                         | Some c => cursor_ranges c
                         | None => []
                         end) entries.

(** The ranges follow one another without gap from [start] to [stop]. *)
Fixpoint tiles (start : Z) (ranges : list (Z * Z)) (stop : Z) : Prop :=
  match ranges with
  | [] => start = stop
  | (o, s) :: ranges' => o = start /\ 0 <= s /\ tiles (start + s) ranges' stop
  end.

(** The bytes of the file from [off] on are the first [n] bytes of [src]. *)
Definition holds_bytes (w : world) (off n : Z) (src : list byte) : Prop :=
  forall k, 0 <= k < n ->
    file_at w (off + k) = Some (nth (Z.to_nat k) src x00).


(** What holds of a theme between two calls: the pool is consistent and the
    ranges of the images, in array order, fill the pool from 0 to
    [used]. *)
Definition theme_inv (theme : wl_cursor_theme) : Prop :=
  pool_inv (theme_pool theme)
  /\ tiles 0 (theme_ranges (cursors theme)) (used (theme_pool theme)).


(** No two cursors of the array have the same name. *)
Definition unique_names (entries : list (option cursor)) : Prop :=
  forall nm, (length (named nm entries) <= 1)%nat.

(** Every entry of the array is a cursor that has a name. *)
Definition all_named (entries : list (option cursor)) : Prop :=
  Forall (fun entry => exists c s, entry = Some c /\ name c = Some s)
    entries.

(** The cursor has the name and the frames of the report. *)
Definition built_from (c : cursor) (xi : XcursorImages) : Prop :=
  name c = Some (xname xi)
  /\ map image (images c) = map xcursor_frame (ximages xi)
  /\ total_delay c = wrap32 (sum_xdelays (ximages xi)).

(** An environment whose [malloc] always returns memory. *)
Definition malloc_never_fails (E : environment) : Prop :=
  forall l, malloc_ok E l = true.


(** Whether an event is the creation of a pool at the compositor. *)
Definition is_create_pool (e : event) : bool :=
  match e with
  | EvShmCreatePool _ _ _ => true
  | _ => false
  end.


(** What [load_default_theme] puts in the array for an entry of the table
    of built-in cursors, seen in the file of [w]: nothing, or a cursor of
    one image with the sizes and the hot spot of the entry, no delay, no
    buffer yet, and the pixels of the entry in the pool. *)
Definition builtin_entry (E : environment) (w : world)
    (metadata : cursor_metadata) (entry : option cursor) : Prop :=
  match entry with
  | None => True
  | Some c =>
      (name c = Some (mname metadata) \/ name c = None)
      /\ total_delay c = 0
      /\ exists img,
           images c = [img]
           /\ buffer img = NULL
           /\ image img = {| width := wrap32 (mwidth metadata);
                             height := wrap32 (mheight metadata);
                             hotspot_x := wrap32 (mhotspot_x metadata);
                             hotspot_y := wrap32 (mhotspot_y metadata);
                             delay := 0 |}
           /\ holds_bytes w (offset img) (image_size img)
                (skipn (Z.to_nat (4 * moffset metadata)) (cursor_data E))
  end.

(** The calls that lead from [w] to [w'] created no pool at the
    compositor. *)
Definition no_pool_created (w w' : world) : Prop :=
  exists evs,
    log w' = log w ++ evs
    /\ Forall (fun e => is_create_pool e = false) evs.


(** ** Tearing down *)

(** The blocks of memory the destructors hand back to [free]. *)
Inductive block : Type :=
| BlockPool
| BlockImage
| BlockName
| BlockCursor
| BlockCursors
| BlockTheme.

(** What a destructor does, in order: [wl_buffer_destroy] and
    [wl_shm_pool_destroy] are requests to the compositor, [munmap] and
    [close] are system calls. *)
Inductive release : Type :=
| RelBufferDestroy (b : handle)
| RelMunmap (m : mapping) (len : Z)
| RelPoolDestroy (h : handle)
| RelClose (d : Z)
| RelFree (what : block).

Definition shm_pool_destroy (p : shm_pool) : list release :=
  [RelMunmap (data p) (size p); RelPoolDestroy (pool p); RelClose (fd p);
   RelFree BlockPool].

Definition wl_cursor_image_destroy (img : cursor_image) : list release :=
  (if buffer img =? NULL then [] else [RelBufferDestroy (buffer img)])
  ++ [RelFree BlockImage].

(** [free(cursor->name)] does nothing when the name is [NULL].  The array
    [cursor->images] is not handed back. *)
Definition wl_cursor_destroy (entry : option cursor)
    : result (list release) :=
  match entry with
  | None => Fault NullDereference
  | Some c =>
      Ok (flat_map wl_cursor_image_destroy (images c)
          ++ match name c with
             | Some _ => [RelFree BlockName]
             | None => []
             end
          ++ [RelFree BlockCursor])
  end.

(** The [for] loop of [wl_cursor_theme_destroy] on the part of the array
    that is left. *)
Fixpoint destroy_loop (rest : list (option cursor))
    : result (list release) :=
  match rest with
  | [] => Ok []
  | entry :: rest' =>
      match wl_cursor_destroy entry with
      | Fault why => Fault why
      | Ok done =>
          match destroy_loop rest' with
          | Fault why => Fault why
          | Ok done' => Ok (done ++ done')
          end
      end
  end.

(** The name of the theme is not handed back. *)
Definition wl_cursor_theme_destroy (theme : wl_cursor_theme)
    : result (list release) :=
  match destroy_loop (cursors theme) with
  | Fault why => Fault why
  | Ok done =>
      Ok (done ++ shm_pool_destroy (theme_pool theme)
          ++ [RelFree BlockCursors; RelFree BlockTheme])
  end.

(** The buffers destroyed, the pools destroyed and the descriptors closed,
    in order. *)
Definition buffers_destroyed (done : list release) : list handle :=
  flat_map (fun r => match r with
                     | RelBufferDestroy b => [b]
                     | _ => []
                     end) done.

Definition pools_destroyed (done : list release) : list handle :=
  flat_map (fun r => match r with
                     | RelPoolDestroy h => [h]
                     | _ => []
                     end) done.

Definition descriptors_closed (done : list release) : list Z :=
  flat_map (fun r => match r with
                     | RelClose d => [d]
                     | _ => []
                     end) done.

Definition images_freed (done : list release) : nat :=
  length (filter (fun r => match r with
                           | RelFree BlockImage => true
                           | _ => false
                           end) done).

(** The buffers the images of a cursor array hold, in array order. *)
Definition cursor_buffers (c : cursor) : list handle :=
  filter (fun b => negb (b =? NULL)) (map buffer (images c)).

Definition theme_buffers (entries : list (option cursor)) : list handle :=
  flat_map (fun entry => match entry with
                         | Some c => cursor_buffers c
                         | None => []
                         end) entries.

(** The images of a cursor array, in array order. *)
Definition theme_images (entries : list (option cursor))
    : list cursor_image :=
  flat_map (fun entry => match entry with
                         | Some c => images c
                         | None => []
                         end) entries.


(** ** More environments *)

(** An environment in which no mapping can be made. *)
Definition no_mapping : environment :=
  {| malloc_ok := fun _ => true;
     anonymous_file_fd := fun _ _ => 3;
     ftruncate_ok := fun _ _ => true;
     mmap_ok := fun _ _ => false;
     new_shm_pool := fun l => 1 + Z.of_nat (length l);
     new_buffer := fun l => 1 + Z.of_nat (length l);
     xcursor_files := fun _ _ => [];
     cursor_metadata_table := [];
     cursor_data := [] |}.

(** An environment with two built-in cursors of one pixel and nothing on
    disk. *)
Definition two_builtin : environment :=
  {| malloc_ok := fun _ => true;
     anonymous_file_fd := fun _ _ => 3;
     ftruncate_ok := fun _ _ => true;
     mmap_ok := fun _ _ => true;
     new_shm_pool := fun l => 1 + Z.of_nat (length l);
     new_buffer := fun l => 1 + Z.of_nat (length l);
     xcursor_files := fun _ _ => [];
     cursor_metadata_table :=
       [{| mname := "left_ptr"; mwidth := 1; mheight := 1;
           mhotspot_x := 0; mhotspot_y := 0; moffset := 0 |};
        {| mname := "xterm"; mwidth := 1; mheight := 1;
           mhotspot_x := 0; mhotspot_y := 0; moffset := 1 |}];
     cursor_data := [x01; x02; x03; x04; x05; x06; x07; x08] |}.

(** A theme of two cursors, the second of which holds a buffer. *)
Definition two_cursors : wl_cursor_theme :=
  {| cursors :=
       [Some {| images := [frame 0 0]; name := Some "left_ptr"%string;
                total_delay := 0 |};
        Some {| images := [{| image := xcursor_frame (xframe 0);
                              buffer := 7; offset := 4 |}];
                name := Some "xterm"%string; total_delay := 0 |}];
     theme_pool := pool_of 64 8;
     theme_name := Some "t"%string; theme_size := 4 |}.

(** * Properties *)

(** ** Machine integers *)

Lemma wrap32_range x : 0 <= wrap32 x < modulus.
Proof. unfold wrap32, modulus. apply Z.mod_pos_bound. lia. Qed.

Lemma wrap32_small x : 0 <= x < modulus -> wrap32 x = x.
Proof. intros H. unfold wrap32. now apply Z.mod_small. Qed.

Lemma wrap32_neg x : - modulus <= x < 0 -> wrap32 x = x + modulus.
Proof.
  intros H. unfold wrap32.
  replace x with ((x + modulus) + (-1) * modulus) at 1 by ring.
  rewrite Z.mod_add by (unfold modulus; lia).
  apply Z.mod_small. lia.
Qed.

Lemma wrap32_add_l a b : wrap32 (wrap32 a + b) = wrap32 (a + b).
Proof. unfold wrap32, modulus. apply Z.add_mod_idemp_l. lia. Qed.

Lemma to_int_small x : 0 <= x <= INT_MAX -> to_int x = x.
Proof.
  intros H. unfold to_int.
  rewrite wrap32_small by (unfold modulus, INT_MAX in *; lia).
  destruct (Z.leb_spec x INT_MAX); lia.
Qed.

Lemma to_int_big x : INT_MAX < x < modulus -> to_int x = x - modulus.
Proof.
  intros H. unfold to_int.
  rewrite wrap32_small by (unfold modulus, INT_MAX in *; lia).
  destruct (Z.leb_spec x INT_MAX); lia.
Qed.

(** The loop test [t - d < t] of [wl_cursor_frame] on [uint32_t] values
    holds exactly when [d] is not zero and does not exceed [t]. *)
Lemma frame_test t d :
  is_uint t -> is_uint d ->
  (wrap32 (t - d) <? t) = (0 <? d) && (d <=? t).
Proof.
  unfold is_uint. intros Ht Hd.
  destruct (Z.ltb_spec 0 d) as [Hpos | Hzero]; simpl.
  - destruct (Z.leb_spec d t) as [Hle | Hgt].
    + rewrite wrap32_small by lia. apply Z.ltb_lt. lia.
    + rewrite wrap32_neg by lia. apply Z.ltb_ge. lia.
  - assert (d = 0) by lia. subst d. rewrite Z.sub_0_r.
    rewrite wrap32_small by lia. apply Z.ltb_irrefl.
Qed.

(** ** Frame selection *)

Lemma sum_delays_nonneg imgs :
  Forall (fun img => is_uint (frame_delay img)) imgs -> 0 <= sum_delays imgs.
Proof.
  induction 1 as [| img imgs Himg _ IH]; unfold sum_delays in *; simpl.
  - lia.
  - unfold is_uint in Himg. lia.
Qed.

(** While the time left is below the delays left, the loop stops inside the
    array. *)
Lemma frame_loop_in_bounds imgs :
  Forall (fun img => is_uint (frame_delay img)) imgs ->
  forall i t, is_uint t -> t < sum_delays imgs ->
  exists j, frame_loop imgs i t = Ok j
            /\ i <= j < i + Z.of_nat (length imgs).
Proof.
  induction 1 as [| img imgs Himg Himgs IH]; intros i t Ht Hsum.
  - unfold sum_delays in Hsum; simpl in Hsum. unfold is_uint in Ht. lia.
  - cbn [frame_loop]. rewrite frame_test by assumption.
    assert (Hcons : sum_delays (img :: imgs)
                    = frame_delay img + sum_delays imgs) by reflexivity.
    destruct (Z.ltb_spec 0 (frame_delay img)) as [Hpos | Hzero];
      destruct (Z.leb_spec (frame_delay img) t) as [Hle | Hgt]; cbn [andb];
      try (exists i; split; [reflexivity | cbn [length]; lia]).
    unfold is_uint in *.
    rewrite wrap32_small by lia.
    destruct (IH (i + 1) (t - frame_delay img)) as (j & Hj & Hrange);
      [lia | lia |].
    exists j. split; [exact Hj | cbn [length]; lia].
Qed.

(** ** Running commands *)

Lemma bind_ok {A B} (m : M A) (k : A -> M B) w r :
  bind m k w = Ok r -> exists a w1, m w = Ok (a, w1) /\ k a w1 = Ok r.
Proof.
  unfold bind. destruct (m w) as [[a w1] | why]; [| discriminate].
  intros H. now exists a, w1.
Qed.

Lemma bind_step {A B} (m : M A) (k : A -> M B) w a w1 :
  m w = Ok (a, w1) -> bind m k w = k a w1.
Proof. unfold bind. now intros ->. Qed.

Ltac bind_inv H :=
  let a := fresh "a" in
  let w := fresh "w" in
  let Hm := fresh "Hm" in
  apply bind_ok in H; destruct H as (a & w & Hm & H).

Tactic Notation "bind_at" hyp(H) "as" ident(a) ident(w) ident(Hm) :=
  apply bind_ok in H; destruct H as (a & w & Hm & H).

Ltac ret_inv H :=
  unfold ret in H; injection H; clear H; intros; subst.

Lemma strdup_inv E s w nm w' :
  strdup E s w = Ok (nm, w') -> nm = Some s \/ nm = None.
Proof.
  unfold strdup. intros H. bind_inv H. ret_inv H.
  destruct a; auto.
Qed.

(** ** The pool *)

Lemma shm_pool_resize_refused E p sz w :
  (0 <=? sz) && ftruncate_ok E (log w) sz = false ->
  shm_pool_resize E p sz w
  = Ok ((0, p), {| file_len := file_len w; file_ops := file_ops w;
                   log := log w ++ [EvFtruncate sz false] |}).
Proof.
  intros H.
  unfold shm_pool_resize, ftruncate, wl_shm_pool_resize, munmap, mmap,
    bind, ask, emit, ret. cbn.
  rewrite H. reflexivity.
Qed.

Lemma shm_pool_resize_done E p sz w :
  (0 <=? sz) && ftruncate_ok E (log w) sz = true ->
  exists ok : bool,
    shm_pool_resize E p sz w
    = Ok ((1, {| pool := pool p; fd := fd p; size := wrap32 sz;
                 used := used p;
                 data := if ok then Mapped sz else MAP_FAILED |}),
          {| file_len := sz;
             file_ops := resize_bytes (file_len w) sz (file_ops w);
             log := log w ++ [EvFtruncate sz true;
                              EvShmPoolResize (pool p) sz;
                              EvMunmap (size p); EvMmap sz ok] |}).
Proof.
  intros H.
  unfold shm_pool_resize, ftruncate, wl_shm_pool_resize, munmap, mmap,
    bind, ask, emit, ret. cbn.
  rewrite H. cbn. eexists. repeat rewrite <- app_assoc. reflexivity.
Qed.

Lemma ftruncate_result E d len w ok w1 :
  ftruncate E d len w = Ok (ok, w1) ->
  ok = (0 <=? len) && ftruncate_ok E (log w) len.
Proof.
  unfold ftruncate, bind, ask, emit, ret. cbn.
  intros H. injection H. intros _ Hok. now subst.
Qed.

Lemma resize_requests_app l l' :
  resize_requests (l ++ l') = (resize_requests l + resize_requests l')%nat.
Proof. unfold resize_requests. now rewrite filter_app, length_app. Qed.

(** C6: when the allocation needs the pool to grow and the truncation of
    the backing file fails, [shm_pool_allocate] returns -1 and the pool is
    the one it was: same capacity, same [used], same file. *)
Theorem shm_pool_allocate_resize_failure E p sz w w1 :
  wrap32 (used p + sz) > size p ->
  ftruncate E (fd p) (to_int (2 * size p + sz)) w = Ok (false, w1) ->
  exists w',
    shm_pool_allocate E p sz w = Ok ((-1, p), w')
    /\ file_len w' = file_len w /\ file_ops w' = file_ops w.
Proof.
  intros Hgrow Hfail. apply ftruncate_result in Hfail.
  unfold shm_pool_allocate.
  destruct (Z.gtb_spec (wrap32 (used p + sz)) (size p)) as [_ | Hle];
    [| lia].
  rewrite (bind_step _ _ _ _ _
             (shm_pool_resize_refused E p _ w (eq_sym Hfail))).
  cbn. eexists. split; [reflexivity |]. cbn. auto.
Qed.

(** An allocation that fits leaves the capacity and the world alone. *)
Lemma allocate_fit_inv E p sz w o p' w' :
  pool_ok p -> 0 < sz -> used p + sz <= size p ->
  shm_pool_allocate E p sz w = Ok ((o, p'), w') ->
  o = used p
  /\ p' = {| pool := pool p; fd := fd p; size := size p;
             used := used p + sz; data := data p |}
  /\ w' = w.
Proof.
  intros [Hused Hsize] Hsz Hfit. unfold shm_pool_allocate, INT_MAX in *.
  rewrite wrap32_small by (unfold modulus; lia).
  destruct (Z.gtb_spec (used p + sz) (size p)) as [Hgt | _]; [lia |].
  unfold ret, bump. intros H. injection H; clear H; intros; subst.
  rewrite wrap32_small by (unfold modulus; lia).
  rewrite to_int_small by (unfold INT_MAX; lia). auto.
Qed.

(** An allocation that does not fit and succeeds has resized the pool once,
    to twice the capacity plus the size, provided that number is below
    2^32. *)
Lemma allocate_growth_inv E p sz w o p' w' :
  pool_ok p -> 0 < sz <= INT_MAX ->
  used p + sz > size p -> 2 * size p + sz < modulus ->
  shm_pool_allocate E p sz w = Ok ((o, p'), w') -> o <> -1 ->
  2 * size p + sz <= INT_MAX /\ o = used p
  /\ exists ok : bool,
      p' = {| pool := pool p; fd := fd p; size := 2 * size p + sz;
              used := used p + sz;
              data := if ok then Mapped (2 * size p + sz)
                      else MAP_FAILED |}
      /\ w' = {| file_len := 2 * size p + sz;
                 file_ops := resize_bytes (file_len w) (2 * size p + sz)
                               (file_ops w);
                 log := log w ++ [EvFtruncate (2 * size p + sz) true;
                                  EvShmPoolResize (pool p)
                                    (2 * size p + sz);
                                  EvMunmap (size p);
                                  EvMmap (2 * size p + sz) ok] |}.
Proof.
  intros [Hused Hsize] Hsz Hgrow Hfits. unfold shm_pool_allocate.
  unfold INT_MAX, modulus in *.
  rewrite wrap32_small by (unfold modulus; lia).
  destruct (Z.gtb_spec (used p + sz) (size p)) as [_ | Hle]; [| lia].
  set (n := to_int (2 * size p + sz)).
  destruct ((0 <=? n) && ftruncate_ok E (log w) n) eqn:Hok.
  - assert (Hn : 0 <= n) by (apply andb_prop in Hok; lia).
    assert (Hsmall : 2 * size p + sz <= 2 ^ 31 - 1).
    { destruct (Z.le_gt_cases (2 * size p + sz) (2 ^ 31 - 1)) as [? | Hbig];
        [assumption |].
      unfold n in Hn.
      rewrite to_int_big in Hn by (unfold INT_MAX, modulus; lia).
      unfold modulus in Hn. lia. }
    assert (Hval : n = 2 * size p + sz)
      by (apply to_int_small; unfold INT_MAX; lia).
    destruct (shm_pool_resize_done E p n w Hok) as (ok & Hres).
    rewrite (bind_step _ _ _ _ _ Hres). cbn [fst snd].
    unfold ret, bump. cbn. intros H _.
    injection H; clear H; intros; subst o p' w'.
    rewrite Hval.
    rewrite (wrap32_small (2 * size p + sz)) by (unfold modulus; lia).
    rewrite wrap32_small by (unfold modulus; lia).
    rewrite to_int_small by (unfold INT_MAX; lia).
    split; [assumption |]. split; [reflexivity |].
    exists ok. split; reflexivity.
  - rewrite (bind_step _ _ _ _ _ (shm_pool_resize_refused E p n w Hok)).
    cbn. unfold ret. intros H Ho. injection H; intros; subst. lia.
Qed.

Lemma file_at_some w i b :
  file_at w i = Some b -> 0 <= i < file_len w /\ b = file_byte w i.
Proof.
  unfold file_at.
  destruct (Z.leb_spec 0 i); destruct (Z.ltb_spec i (file_len w));
    cbn; intros Heq; try discriminate.
  injection Heq; intros; subst. split; [lia | reflexivity].
Qed.

(** C2, amended: for every pool with [used <= capacity] and every positive
    size [sz] that does not fit, when twice the capacity plus [sz] is below
    2^32, a successful allocation resizes the pool exactly once, the new
    capacity is [max (2 * capacity + sz) (capacity + sz) = 2 * capacity +
    sz], the allocation gets the old [used] as offset, and every byte that
    was in the pool is still there. *)
Theorem shm_pool_allocate_growth E p sz w o p' w' :
  is_uint (size p) -> 0 <= used p <= size p ->
  0 < sz <= INT_MAX ->
  used p + sz > size p ->
  2 * size p + sz < modulus ->
  shm_pool_allocate E p sz w = Ok ((o, p'), w') -> o <> -1 ->
  size p' = Z.max (size p * 2 + sz) (size p + sz)
  /\ size p' = 2 * size p + sz
  /\ o = used p /\ used p' = used p + sz /\ used p' <= size p'
  /\ resize_requests (log w') = S (resize_requests (log w))
  /\ (exists ok, log w' = log w ++ [EvFtruncate (size p') true;
                                    EvShmPoolResize (pool p) (size p');
                                    EvMunmap (size p);
                                    EvMmap (size p') ok])
  /\ forall i b, 0 <= i < size p ->
       file_at w i = Some b -> file_at w' i = Some b.
Proof.
  intros Hcap Hused Hsz Hgrow Hfits Hrun Ho.
  assert (Hok : pool_ok p).
  { unfold pool_ok, is_uint, INT_MAX, modulus in *. lia. }
  destruct (allocate_growth_inv E p sz w o p' w' Hok Hsz Hgrow Hfits Hrun Ho)
    as (Hsmall & Hoff & ok & Hp' & Hw').
  subst p' w'. cbn [size used log].
  unfold is_uint in Hcap.
  split; [lia |]. split; [reflexivity |]. split; [assumption |].
  split; [reflexivity |]. split; [lia |].
  split; [rewrite resize_requests_app; cbn; lia |].
  split; [exists ok; reflexivity |].
  intros i b Hi Hb. apply file_at_some in Hb. destruct Hb as [Hlen Hb].
  unfold file_at, file_byte, resize_bytes. cbn [file_len file_ops byte_of].
  destruct (Z.leb_spec 0 i); [| lia].
  destruct (Z.ltb_spec i (2 * size p + sz)); [| lia].
  destruct (Z.ltb_spec i (Z.min (file_len w) (2 * size p + sz))); [| lia].
  cbn. now subst b.
Qed.

(** What [memcpy] into the pool leaves behind when it returns: the bytes
    copied are in the file, the other bytes are as before. *)
Lemma memcpy_to_pool_inv p off src n w u w1 :
  memcpy_to_pool p off src n w = Ok (u, w1) ->
  0 <= off /\ 0 <= n /\ off + n <= file_len w
  /\ file_len w1 = file_len w /\ log w1 = log w
  /\ (forall k, 0 <= k < n ->
        file_at w1 (off + k) = Some (nth (Z.to_nat k) src x00))
  /\ (forall i, ~ off <= i < off + n -> file_at w1 i = file_at w i).
Proof.
  unfold memcpy_to_pool. destruct (data p) as [len |]; [| discriminate].
  destruct (Z.leb_spec 0 off); cbn [andb]; [| discriminate].
  destruct (Z.leb_spec 0 n); cbn [andb]; [| discriminate].
  destruct (Z.leb_spec (off + n) len); cbn [andb]; [| discriminate].
  destruct (Z.leb_spec (off + n) (file_len w)); cbn [andb]; [| discriminate].
  destruct (Z.leb_spec n (Z.of_nat (length src))); [| discriminate].
  intros Heq. injection Heq; clear Heq; intros; subst w1.
  assert (Hlen : Z.of_nat (length (firstn (Z.to_nat n) src)) = n)
    by (rewrite length_firstn; lia).
  repeat split; try assumption.
  - intros k Hk. unfold file_at, file_byte, set_file.
    cbn [file_len file_ops byte_of]. rewrite Hlen.
    destruct (Z.leb_spec 0 (off + k)); [| lia].
    destruct (Z.ltb_spec (off + k) (file_len w)); [| lia].
    destruct (Z.leb_spec off (off + k)); [| lia].
    destruct (Z.ltb_spec (off + k) (off + n)); [| lia].
    cbn [andb]. f_equal.
    replace (off + k - off) with k by lia.
    rewrite <- (firstn_skipn (Z.to_nat n) src) at 2.
    rewrite app_nth1; [reflexivity | rewrite length_firstn; lia].
  - intros i Hi. unfold file_at, file_byte, set_file.
    cbn [file_len file_ops byte_of]. rewrite Hlen.
    destruct ((0 <=? i) && (i <? file_len w)); [| reflexivity].
    destruct (Z.leb_spec off i); destruct (Z.ltb_spec i (off + n));
      cbn [andb]; try reflexivity. lia.
Qed.

(** Pixels copied into an allocated range are still there after the pool
    has grown for a later allocation. *)
Lemma pixels_survive_growth E p off src n w u w1 sz o p' w2 :
  pool_ok p -> off + n <= size p ->
  memcpy_to_pool p off src n w = Ok (u, w1) ->
  0 < sz <= INT_MAX -> used p + sz > size p ->
  2 * size p + sz < modulus ->
  shm_pool_allocate E p sz w1 = Ok ((o, p'), w2) -> o <> -1 ->
  forall k, 0 <= k < n ->
    file_at w2 (off + k) = Some (nth (Z.to_nat k) src x00).
Proof.
  intros Hp Hin Hcopy Hsz Hgrow Hfits Halloc Ho k Hk.
  destruct (memcpy_to_pool_inv _ _ _ _ _ _ _ Hcopy)
    as (Hoff & Hn & Hfile & Hlen & _ & Hbytes & _).
  specialize (Hbytes k Hk).
  destruct (allocate_growth_inv E p sz w1 o p' w2 Hp Hsz Hgrow Hfits Halloc Ho)
    as (_ & _ & ok & _ & ->).
  unfold file_at in Hbytes |- *. unfold file_byte in *.
  cbn [file_len file_ops resize_bytes byte_of].
  destruct Hp as [Hused Hcap].
  destruct (Z.leb_spec 0 (off + k)); [| lia].
  destruct (Z.ltb_spec (off + k) (file_len w1)); [| lia].
  destruct (Z.ltb_spec (off + k) (2 * size p + sz)); [| lia].
  destruct (Z.ltb_spec (off + k) (Z.min (file_len w1) (2 * size p + sz)));
    [| lia].
  exact Hbytes.
Qed.

(** ** Sequences of allocations *)

Lemma os_create_anonymous_file_inv E len w d w1 :
  os_create_anonymous_file E len w = Ok (d, w1) -> 0 <= d ->
  0 <= len /\ file_len w1 = len.
Proof.
  unfold os_create_anonymous_file, bind, ask, emit, ret. cbn.
  destruct (Z.ltb_spec len 0) as [Hlt | Hge]; cbn.
  - intros Heq; injection Heq; intros; subst; lia.
  - destruct (anonymous_file_fd E (log w) len <? 0) eqn:Hfd; cbn.
    + intros Heq; injection Heq; intros; subst; lia.
    + rewrite Hfd. cbn.
      intros Heq; injection Heq; intros; subst. cbn. lia.
Qed.

Lemma mmap_inv E len w m w1 :
  mmap E len w = Ok (m, w1) ->
  file_len w1 = file_len w /\ file_ops w1 = file_ops w.
Proof.
  unfold mmap, bind, ask, emit, ret. cbn.
  intros Heq; injection Heq; intros; subst. auto.
Qed.

Lemma wl_shm_create_pool_inv E d len w h w1 :
  wl_shm_create_pool E d len w = Ok (h, w1) ->
  file_len w1 = file_len w /\ file_ops w1 = file_ops w.
Proof.
  unfold wl_shm_create_pool, bind, ask, emit, ret. cbn.
  intros Heq; injection Heq; intros; subst. auto.
Qed.

Lemma shm_pool_create_inv E sz w0 p w :
  shm_pool_create E sz w0 = Ok (Some p, w) ->
  0 <= sz /\ used p = 0 /\ size p = wrap32 sz /\ file_len w = sz.
Proof.
  unfold shm_pool_create. intros H.
  bind_inv H. destruct a; cbn [negb] in H; [| ret_inv H; discriminate].
  bind_inv H. rename a into d.
  destruct (Z.ltb_spec d 0) as [Hneg | Hd]; [ret_inv H; discriminate |].
  destruct (os_create_anonymous_file_inv _ _ _ _ _ Hm0 Hd) as [Hsz Hlen].
  bind_inv H. destruct a as [len |].
  - bind_inv H. ret_inv H. cbn.
    apply mmap_inv in Hm1. apply wl_shm_create_pool_inv in Hm2.
    destruct Hm1 as [Hl1 _], Hm2 as [Hl2 _].
    repeat split; try reflexivity; try lia.
  - bind_inv H. ret_inv H. discriminate.
Qed.

Lemma spec_capacity_ge sizes :
  Forall (fun s => 0 < s <= INT_MAX) sizes ->
  forall cap u, 0 <= cap -> cap <= spec_capacity cap u sizes.
Proof.
  induction 1 as [| s sizes Hs _ IH]; intros cap u Hcap;
    cbn [spec_capacity].
  - lia.
  - destruct (u + s >? cap).
    + specialize (IH (2 * cap + s) (u + s)). lia.
    + now apply IH.
Qed.

Lemma spec_capacity_firstn sizes :
  Forall (fun s => 0 < s <= INT_MAX) sizes ->
  forall k cap u, 0 <= cap ->
    spec_capacity cap u (firstn k sizes) <= spec_capacity cap u sizes.
Proof.
  induction 1 as [| s sizes Hs Hall IH]; intros k cap u Hcap.
  - destruct k; cbn; lia.
  - destruct k; cbn [firstn spec_capacity].
    + apply (spec_capacity_ge (s :: sizes)); [now constructor | assumption].
    + destruct (u + s >? cap); apply IH; lia.
Qed.

(** A run of successful allocations below the word size follows the bump
    allocator and the growth rule. *)
Lemma allocate_all_spec E sizes :
  Forall (fun s => 0 < s <= INT_MAX) sizes ->
  forall p w offs p' w',
    pool_ok p ->
    spec_capacity (size p) (used p) sizes < modulus ->
    allocate_all E p sizes w = Ok ((offs, p'), w') ->
    Forall (fun o => o <> -1) offs ->
    offs = bump_offsets (used p) sizes
    /\ used p' = used p + total sizes
    /\ size p' = spec_capacity (size p) (used p) sizes
    /\ pool_ok p'.
Proof.
  induction 1 as [| s sizes Hs Hall IH]; intros p w offs p' w' Hp Hcap Hrun Hoffs.
  - cbn in Hrun. ret_inv Hrun. cbn. repeat split; try apply Hp. lia.
  - cbn [allocate_all] in Hrun. bind_at Hrun as r1 w1 Hm.
    destruct r1 as [o p1].
    bind_at Hrun as r2 w2 Hm0. destruct r2 as [offs1 p2]. ret_inv Hrun.
    cbn [fst snd] in *. inversion Hoffs as [| ? ? Ho Hoffs1]; subst.
    cbn [spec_capacity] in Hcap. cbn [spec_capacity bump_offsets total fold_right].
    pose proof Hp as [Hused Hsize].
    destruct (Z.gtb_spec (used p + s) (size p)) as [Hgrow | Hfit].
    + assert (Hfits : 2 * size p + s < modulus).
      { pose proof (spec_capacity_ge sizes Hall (2 * size p + s)
                      (used p + s)). lia. }
      destruct (allocate_growth_inv E p s w o p1 w1 Hp Hs
                  ltac:(lia) Hfits Hm Ho)
        as (Hsmall & -> & ok & -> & ->).
      match type of Hm0 with allocate_all _ ?q _ _ = _ =>
        assert (Hq : pool_ok q) by (unfold pool_ok; cbn [used size]; lia)
      end.
      destruct (IH _ _ _ _ _ Hq Hcap Hm0 Hoffs1) as (-> & Hu & Hc & Hok').
      cbn [used size] in *. fold (total sizes).
      repeat split; try assumption; try apply Hok'. lia.
    + destruct (allocate_fit_inv E p s w o p1 w1 Hp ltac:(lia) Hfit Hm)
        as (-> & -> & ->).
      match type of Hm0 with allocate_all _ ?q _ _ = _ =>
        assert (Hq : pool_ok q) by (unfold pool_ok; cbn [used size]; lia)
      end.
      destruct (IH _ _ _ _ _ Hq Hcap Hm0 Hoffs1) as (-> & Hu & Hc & Hok').
      cbn [used size] in *. fold (total sizes).
      repeat split; try assumption; try apply Hok'. lia.
Qed.

Lemma allocate_all_firstn E sizes :
  forall p w offs p' w',
    allocate_all E p sizes w = Ok ((offs, p'), w') ->
    forall k, exists pk wk,
      allocate_all E p (firstn k sizes) w = Ok ((firstn k offs, pk), wk).
Proof.
  induction sizes as [| s sizes IH]; intros p w offs p' w' Hrun k.
  - cbn in Hrun. ret_inv Hrun. destruct k; cbn; eexists _, _; reflexivity.
  - cbn [allocate_all] in Hrun. bind_at Hrun as r1 w1 Hm.
    destruct r1 as [o p1].
    bind_at Hrun as r2 w2 Hm0. destruct r2 as [offs1 p2]. ret_inv Hrun.
    cbn [fst snd] in *. destruct k as [| k].
    + cbn. eexists _, _; reflexivity.
    + destruct (IH _ _ _ _ _ Hm0 k) as (pk & wk & Hk).
      exists pk, wk. cbn [firstn allocate_all].
      rewrite (bind_step _ _ _ _ _ Hm). cbn [fst snd].
      rewrite (bind_step _ _ _ _ _ Hk). reflexivity.
Qed.

Lemma bump_offsets_nth sizes :
  forall start i o,
    nth_error (bump_offsets start sizes) i = Some o ->
    o = start + total (firstn i sizes).
Proof.
  induction sizes as [| s sizes IH]; intros start i o H.
  - destruct i; discriminate.
  - destruct i as [| i]; cbn in H.
    + injection H; intros; subst. cbn. lia.
    + apply IH in H. cbn [firstn total fold_right]. fold (total (firstn i sizes)).
      lia.
Qed.

Lemma total_firstn_lt sizes :
  Forall (fun s => 0 < s <= INT_MAX) sizes ->
  forall i j s, (i < j)%nat -> nth_error sizes i = Some s ->
    total (firstn i sizes) + s <= total (firstn j sizes).
Proof.
  induction 1 as [| s0 sizes Hs0 Hall IH]; intros i j s Hij Hnth.
  - destruct i; discriminate.
  - destruct j as [| j]; [lia |].
    assert (Hnonneg : forall k, 0 <= total (firstn k sizes)).
    { clear - Hall. induction Hall as [| x l Hx _ IHl]; intros k.
      - destruct k; cbn; lia.
      - destruct k; cbn; [lia |]. specialize (IHl k).
        fold (total (firstn k l)). lia. }
    destruct i as [| i]; cbn in Hnth.
    + injection Hnth; intros; subst.
      cbn [firstn total fold_right]. fold (total (firstn j sizes)).
      specialize (Hnonneg j). lia.
    + cbn [firstn total fold_right].
      fold (total (firstn i sizes)). fold (total (firstn j sizes)).
      specialize (IH i j s ltac:(lia) Hnth). lia.
Qed.

Lemma Forall_prefix {A} (P : A -> Prop) (l : list A) :
  Forall P l -> forall k, Forall P (firstn k l).
Proof.
  induction 1 as [| x l Hx _ IH]; intros k; destruct k; cbn;
    constructor; auto.
Qed.

(** C3, amended: on a freshly created pool, for every sequence of
    successful allocations of positive sizes for which the capacity the
    growth rule asks for stays below 2^32, after the [k]-th allocation
    [used] is the sum of the first [k] sizes and is at most the capacity,
    and the ranges handed out are pairwise disjoint. *)
Theorem allocate_all_fresh_pool E sz w0 p w sizes offs p' w' :
  is_int sz ->
  shm_pool_create E sz w0 = Ok (Some p, w) ->
  Forall (fun s => 0 < s <= INT_MAX) sizes ->
  spec_capacity (size p) 0 sizes < modulus ->
  allocate_all E p sizes w = Ok ((offs, p'), w') ->
  Forall (fun o => o <> -1) offs ->
  (forall k, (k <= length sizes)%nat ->
     exists pk wk,
       allocate_all E p (firstn k sizes) w = Ok ((firstn k offs, pk), wk)
       /\ used pk = total (firstn k sizes)
       /\ used pk <= size pk)
  /\ (forall i j oi si oj sj,
        nth_error offs i = Some oi -> nth_error sizes i = Some si ->
        nth_error offs j = Some oj -> nth_error sizes j = Some sj ->
        i <> j -> ranges_disjoint oi si oj sj).
Proof.
  intros Hsz Hcreate Hsizes Hcap Hrun Hoffs.
  destruct (shm_pool_create_inv _ _ _ _ _ Hcreate)
    as (Hpos & Hused & Hsize & _).
  assert (Hp : pool_ok p).
  { unfold pool_ok, is_int in *. rewrite Hused, Hsize.
    rewrite wrap32_small by (unfold modulus, INT_MAX in *; lia). lia. }
  split.
  - intros k _.
    destruct (allocate_all_firstn E sizes _ _ _ _ _ Hrun k)
      as (pk & wk & Hk).
    exists pk, wk. split; [exact Hk |].
    assert (Hcapk : spec_capacity (size p) (used p) (firstn k sizes)
                    < modulus).
    { pose proof (spec_capacity_firstn sizes Hsizes k (size p) (used p)
                    ltac:(destruct Hp; lia)).
      rewrite Hused in *. lia. }
    destruct (allocate_all_spec E (firstn k sizes)
                (Forall_prefix _ _ Hsizes k) _ _ _ _ _ Hp Hcapk Hk
                (Forall_prefix _ _ Hoffs k))
      as (_ & Hu & _ & Hok).
    rewrite Hused in Hu. split; [lia | apply Hok].
  - rewrite <- Hused in Hcap.
    destruct (allocate_all_spec E sizes Hsizes _ _ _ _ _ Hp Hcap Hrun Hoffs)
      as (-> & _).
    rewrite Hused.
    intros i j oi si oj sj Hoi Hsi Hoj Hsj Hij.
    apply bump_offsets_nth in Hoi, Hoj. subst oi oj.
    unfold ranges_disjoint.
    destruct (Nat.lt_total i j) as [Hlt | [Heq | Hgt]]; [| contradiction |].
    + left. pose proof (total_firstn_lt sizes Hsizes i j si Hlt Hsi). lia.
    + right. pose proof (total_firstn_lt sizes Hsizes j i sj Hgt Hsj). lia.
Qed.

(** *** Examples for the pool *)

Lemma shm_pool_allocate_resize_failure_witness :
  exists w',
    shm_pool_allocate no_growth (pool_of 4 0) 16 (world_of 4)
    = Ok ((-1, pool_of 4 0), w')
    /\ file_len w' = file_len (world_of 4)
    /\ file_ops w' = file_ops (world_of 4).
Proof.
  eapply (shm_pool_allocate_resize_failure no_growth (pool_of 4 0) 16
            (world_of 4)).
  - reflexivity.
  - reflexivity.
Defined.

(** A pool of 4 bytes grows to 24 bytes for an allocation of 16. *)
Lemma shm_pool_allocate_growth_witness :
  exists o p' w',
    shm_pool_allocate friendly (pool_of 4 4) 16 (world_of 4)
    = Ok ((o, p'), w')
    /\ size p' = 24 /\ o = 4 /\ used p' = 20
    /\ resize_requests (log w') = 1%nat
    /\ file_at w' 3 = Some x00.
Proof.
  eexists _, _, _. split; [reflexivity |].
  destruct (shm_pool_allocate_growth friendly (pool_of 4 4) 16 (world_of 4)
              _ _ _
              ltac:(vm_compute; split; [discriminate | reflexivity])
              ltac:(vm_compute; split; discriminate)
              ltac:(vm_compute; split; [reflexivity | discriminate])
              ltac:(reflexivity) ltac:(reflexivity)
              ltac:(reflexivity) ltac:(discriminate))
    as (_ & Hsize & Hoff & Hused & _ & Hreq & _ & Hbytes).
  split; [exact Hsize |]. split; [exact Hoff |]. split; [exact Hused |].
  split; [exact Hreq |].
  apply Hbytes; [vm_compute; split; [discriminate | reflexivity]
                | reflexivity].
Defined.

(** C2 as stated fails when twice the capacity plus the size passes 2^32:
    a pool of 2147395600 bytes, all handed out, asked for 176100 bytes, is
    resized to 4 bytes, the allocation returns an offset, and the bytes from
    position 4 on are gone. *)
Lemma shm_pool_allocate_growth_wraps :
  exists o p' w',
    shm_pool_allocate friendly (pool_of 2147395600 2147395600) 176100
      (world_of 2147395600) = Ok ((o, p'), w')
    /\ used (pool_of 2147395600 2147395600)
       <= size (pool_of 2147395600 2147395600)
    /\ used (pool_of 2147395600 2147395600) + 176100
       > size (pool_of 2147395600 2147395600)
    /\ o <> -1
    /\ size p' = 4
    /\ size p' <> Z.max (size (pool_of 2147395600 2147395600) * 2 + 176100)
                    (size (pool_of 2147395600 2147395600) + 176100)
    /\ resize_requests (log w') = 1%nat
    /\ file_at (world_of 2147395600) 100 = Some x00
    /\ file_at w' 100 = None.
Proof.
  eexists _, _, _. split; [vm_compute; reflexivity |].
  vm_compute. repeat split; try discriminate; reflexivity.
Defined.

Lemma allocate_all_fresh_pool_witness :
  exists p w offs p' w',
    shm_pool_create friendly 4 empty_world = Ok (Some p, w)
    /\ allocate_all friendly p [4; 16; 8] w = Ok ((offs, p'), w')
    /\ offs = [0; 4; 20]
    /\ (exists pk wk,
          allocate_all friendly p (firstn 2 [4; 16; 8]) w
          = Ok ((firstn 2 offs, pk), wk)
          /\ used pk = total (firstn 2 [4; 16; 8]) /\ used pk <= size pk)
    /\ ranges_disjoint 0 4 20 8.
Proof.
  eexists _, _, _, _, _.
  split; [vm_compute; reflexivity |].
  split; [vm_compute; reflexivity |].
  split; [reflexivity |].
  lazymatch goal with
  | |- (exists pk wk, allocate_all _ ?p _ ?w = _ /\ _) /\ _ =>
      eassert (Hrun : allocate_all friendly p [4; 16; 8] w
                      = Ok (([0; 4; 20], _), _))
        by (vm_compute; reflexivity);
      destruct (allocate_all_fresh_pool friendly 4 empty_world p w
                  [4; 16; 8] _ _ _
                  ltac:(vm_compute; split; discriminate)
                  ltac:(vm_compute; reflexivity)
                  ltac:(repeat constructor; discriminate)
                  ltac:(vm_compute; reflexivity) Hrun
                  ltac:(repeat constructor; discriminate))
        as [Hk Hdisj]
  end.
  split.
  - apply (Hk 2%nat). cbn. lia.
  - apply (Hdisj 0%nat 2%nat); (reflexivity || discriminate).
Defined.

(** C3 as stated fails on a fresh pool of 2147395600 bytes: after the
    allocations of 2147395600 and 176100 bytes, both successful, the
    capacity is 4 and [used] is 2147571700. *)
Lemma allocate_all_overruns_capacity :
  exists p w offs p' w',
    shm_pool_create friendly 2147395600 empty_world = Ok (Some p, w)
    /\ allocate_all friendly p [2147395600; 176100] w
       = Ok ((offs, p'), w')
    /\ offs = [0; 2147395600]
    /\ Forall (fun o => o <> -1) offs
    /\ used p' = 2147571700 /\ size p' = 4
    /\ ~ used p' <= size p'.
Proof.
  eexists _, _, _, _, _. split; [vm_compute; reflexivity |].
  split; [vm_compute; reflexivity |]. split; [reflexivity |].
  split; [repeat constructor; discriminate |].
  vm_compute. repeat split; try reflexivity. intros H; apply H; reflexivity.
Defined.

(** ** Building cursors *)

Lemma loop_total_sum todo :
  forall a, loop_total (wrap32 a) todo = wrap32 (a + sum_xdelays todo).
Proof.
  induction todo as [| x todo IH]; intros a; cbn.
  - now rewrite Z.add_0_r.
  - fold (loop_total (wrap32 (wrap32 a + xdelay x)) todo).
    fold (sum_xdelays todo).
    rewrite wrap32_add_l, IH. f_equal. lia.
Qed.

(** The loop appends one image per [XcursorImage], with the fields of that
    image and no buffer, adds up the delays in [uint32_t] and touches
    nothing of the theme but the pool. *)
Lemma xcursor_images_loop_inv E todo :
  forall theme done tot w r w',
    xcursor_images_loop E todo theme done tot w = Ok (r, w') ->
    (exists new, fst (fst r) = done ++ new
                 /\ map image new = map xcursor_frame todo
                 /\ Forall (fun img => buffer img = NULL) new)
    /\ snd (fst r) = loop_total tot todo
    /\ cursors (snd r) = cursors theme.
Proof.
  induction todo as [| x todo IH]; intros theme done tot w r w' H.
  - cbn in H. ret_inv H. cbn [fst snd].
    split; [| split; reflexivity].
    exists []. rewrite app_nil_r. repeat split. constructor.
  - cbn [xcursor_images_loop] in H.
    bind_at H as ok w1 Hmalloc.
    destruct ok; cbn [negb] in H; [| discriminate].
    bind_at H as a w2 Halloc. bind_at H as u w3 Hcopy.
    apply IH in H. destruct H as ((new & Hnew & Himg & Hbuf) & Htot & Hcur).
    split; [| split].
    + eexists (_ :: new). rewrite Hnew, <- app_assoc. split; [reflexivity |].
      split.
      * cbn [map image]. now rewrite Himg.
      * constructor; [reflexivity | exact Hbuf].
    + rewrite Htot. reflexivity.
    + rewrite Hcur. reflexivity.
Qed.

Lemma wl_cursor_create_from_xcursor_images_inv E xi theme w c theme' w' :
  wl_cursor_create_from_xcursor_images E xi theme w
    = Ok ((Some c, theme'), w') ->
  map image (images c) = map xcursor_frame (ximages xi)
  /\ Forall (fun img => buffer img = NULL) (images c)
  /\ total_delay c = wrap32 (sum_xdelays (ximages xi))
  /\ (name c = Some (xname xi) \/ name c = None)
  /\ cursors theme' = cursors theme.
Proof.
  unfold wl_cursor_create_from_xcursor_images. intros H.
  bind_at H as ok1 w1 Hm1.
  destruct ok1; cbn [negb] in H; [| ret_inv H; discriminate].
  bind_at H as ok2 w2 Hm2.
  destruct ok2; cbn [negb] in H; [| ret_inv H; discriminate].
  bind_at H as nm w3 Hnm. bind_at H as r w4 Hloop.
  ret_inv H. cbn [images total_delay name].
  apply xcursor_images_loop_inv in Hloop.
  destruct Hloop as ((new & Hnew & Himg & Hbuf) & Htot & Hcur).
  rewrite Hnew. cbn [app].
  repeat split; try assumption.
  - rewrite Htot. change 0 with (wrap32 0) at 1.
    now rewrite loop_total_sum.
  - now apply strdup_inv in Hnm.
Qed.

Lemma wl_cursor_create_from_data_inv E metadata theme w c theme' w' :
  wl_cursor_create_from_data E metadata theme w
    = Ok ((Some c, theme'), w') ->
  length (images c) = 1%nat /\ total_delay c = 0
  /\ Forall (fun img => frame_delay img = 0) (images c).
Proof.
  unfold wl_cursor_create_from_data. intros H.
  bind_at H as ok1 w1 Hm1.
  destruct ok1; cbn [negb] in H; [| ret_inv H; discriminate].
  bind_at H as ok2 w2 Hm2.
  destruct ok2; cbn [negb] in H; [| ret_inv H; discriminate].
  bind_at H as nm w3 Hnm. bind_at H as ok3 w4 Hm3.
  destruct ok3; cbn [negb] in H; [| ret_inv H; discriminate].
  bind_at H as r w5 Halloc. bind_at H as u w6 Hcopy.
  ret_inv H. cbn. repeat split. repeat constructor.
Qed.

Lemma map_frame_delay imgs xs :
  map image imgs = map xcursor_frame xs ->
  map frame_delay imgs = map xdelay xs.
Proof.
  revert xs. induction imgs as [| img imgs IH]; intros [| x xs] H;
    try discriminate; [reflexivity |].
  cbn in H. injection H as Himg Hrest.
  cbn. unfold frame_delay at 1. rewrite Himg. cbn.
  f_equal. now apply IH.
Qed.

(** Every cursor the program builds is well formed. *)
Lemma built_cursor_wf E c : built_cursor E c -> cursor_wf c.
Proof.
  intros [xi theme w c' theme' w' Hwf Hrun
         | metadata theme w c' theme' w' Hrun].
  - apply wl_cursor_create_from_xcursor_images_inv in Hrun.
    destruct Hrun as (Himg & _ & Htot & _).
    apply map_frame_delay in Himg.
    unfold cursor_wf, sum_delays. rewrite Himg. split.
    + unfold xcursor_wf in Hwf.
      apply Forall_map with (f := frame_delay) (P := is_uint).
      rewrite Himg. now apply Forall_map.
    + exact Htot.
  - apply wl_cursor_create_from_data_inv in Hrun.
    destruct Hrun as (Hlen & Htot & Hzero).
    unfold cursor_wf, sum_delays.
    destruct (images c') as [| img [| ? ?]]; try discriminate.
    inversion Hzero as [| ? ? H0 _]; subst.
    split.
    + constructor; [| constructor].
      rewrite H0. unfold is_uint, modulus. lia.
    + cbn. rewrite H0, Htot. reflexivity.
Qed.

(** ** Frame selection *)

Lemma wrap32_le x : 0 <= x -> wrap32 x <= x.
Proof. intros H. unfold wrap32, modulus. apply Z.mod_le; lia. Qed.

(** The invariant of [struct cursor] speaks of the delays and of
    [total_delay] only: it holds whatever the [buffer] fields are, so
    storing a buffer in an image keeps it. *)
Lemma cursor_wf_buffers c imgs :
  cursor_wf c ->
  map image imgs = map image (images c) ->
  cursor_wf {| images := imgs; name := name c;
               total_delay := total_delay c |}.
Proof.
  intros [Huint Htotal] Himg.
  assert (Hdelays : map frame_delay imgs = map frame_delay (images c)).
  { unfold frame_delay.
    rewrite <- (map_map image delay imgs),
      <- (map_map image delay (images c)).
    now rewrite Himg. }
  unfold cursor_wf, sum_delays in *. cbn [images total_delay].
  rewrite Hdelays. split; [| exact Htotal].
  apply Forall_map with (f := frame_delay) (P := is_uint).
  rewrite Hdelays. now apply Forall_map.
Qed.

(** C10: for every cursor that has at least one image and, when it has
    several, a positive [total_delay], [wl_cursor_frame] returns (no
    division by zero, no read past the array, the loop ends) and the index
    it returns is one of the array.  The cursor is one that keeps the
    invariant of [struct cursor]: the delays are [uint32_t] values and
    [total_delay] is their sum in [uint32_t]; the images may hold buffers
    or not. *)
Theorem wl_cursor_frame_in_bounds c time :
  cursor_wf c ->
  image_count c >= 1 ->
  (image_count c > 1 -> total_delay c > 0) ->
  exists i, wl_cursor_frame c time = Ok i /\ 0 <= i < image_count c.
Proof.
  intros [Huint Htotal] Hcount Hdelay.
  unfold wl_cursor_frame.
  destruct (Z.eqb_spec (image_count c) 1) as [Hone | Hmany].
  - exists 0. split; [reflexivity | lia].
  - specialize (Hdelay ltac:(lia)).
    destruct (Z.eqb_spec (total_delay c) 0) as [Hzero | _]; [lia |].
    pose proof (Z.mod_pos_bound time (total_delay c) ltac:(lia)) as Ht.
    pose proof (wrap32_range (sum_delays (images c))) as Hr.
    pose proof (wrap32_le _ (sum_delays_nonneg _ Huint)) as Hle.
    destruct (frame_loop_in_bounds (images c) Huint 0
                (time mod total_delay c)) as (j & Hj & Hrange).
    + unfold is_uint. lia.
    + lia.
    + exists j. split; [exact Hj |]. unfold image_count. lia.
Qed.

(** C9: a cursor with one frame is at frame 0 at times 0, 1 and 1000000;
    a cursor with frames of 100, 200 and 150 milliseconds (450 in total) is
    at frame 0 at time 0, at frame 1 at 150, at frame 2 at 449 and at frame
    0 again at 450 and at 900. *)
Theorem wl_cursor_frame_examples :
  (forall c, image_count c = 1 ->
     wl_cursor_frame c 0 = Ok 0 /\ wl_cursor_frame c 1 = Ok 0
     /\ wl_cursor_frame c 1000000 = Ok 0)
  /\ (forall c, map frame_delay (images c) = [100; 200; 150] ->
        total_delay c = 450 ->
        wl_cursor_frame c 0 = Ok 0 /\ wl_cursor_frame c 150 = Ok 1
        /\ wl_cursor_frame c 449 = Ok 2 /\ wl_cursor_frame c 450 = Ok 0
        /\ wl_cursor_frame c 900 = Ok 0).
Proof.
  split.
  - intros c Hone. unfold wl_cursor_frame. rewrite Hone. cbn. auto.
  - intros c Hdelays Htotal. unfold wl_cursor_frame, image_count.
    rewrite Htotal.
    destruct (images c) as [| f1 [| f2 [| f3 [| f4 rest]]]];
      try discriminate.
    injection Hdelays as H1 H2 H3.
    cbn [length frame_loop]. rewrite H1, H2, H3.
    repeat split; reflexivity.
Qed.

Lemma wl_cursor_frame_examples_witness :
  (wl_cursor_frame one_frame 0 = Ok 0
   /\ wl_cursor_frame one_frame 1 = Ok 0
   /\ wl_cursor_frame one_frame 1000000 = Ok 0)
  /\ (wl_cursor_frame three_frames 0 = Ok 0
      /\ wl_cursor_frame three_frames 150 = Ok 1
      /\ wl_cursor_frame three_frames 449 = Ok 2
      /\ wl_cursor_frame three_frames 450 = Ok 0
      /\ wl_cursor_frame three_frames 900 = Ok 0).
Proof.
  split.
  - apply (proj1 wl_cursor_frame_examples one_frame). reflexivity.
  - apply (proj2 wl_cursor_frame_examples three_frames); reflexivity.
Defined.

(** Where every delay is positive, the loop of [wl_cursor_frame] and the
    walk of the specification take the same steps. *)
Lemma frame_loop_spec_walk imgs :
  Forall (fun img => 0 < frame_delay img < modulus) imgs ->
  forall i cum t, 0 <= cum <= t -> t < modulus ->
    frame_loop imgs i (t - cum)
    = match spec_frame_walk (map frame_delay imgs) i cum t with
      | Some j => Ok j
      | None => Fault OutOfBounds
      end.
Proof.
  induction 1 as [| img imgs Himg _ IH]; intros i cum t Hcum Ht.
  - reflexivity.
  - cbn [frame_loop map spec_frame_walk].
    rewrite frame_test by (unfold is_uint; lia).
    destruct (Z.ltb_spec 0 (frame_delay img)); [| lia]. cbn [andb].
    destruct (Z.leb_spec (frame_delay img) (t - cum));
      destruct (Z.ltb_spec t (cum + frame_delay img)); try lia;
      [| reflexivity].
    rewrite wrap32_small by (unfold modulus in *; lia).
    replace (t - cum - frame_delay img) with (t - (cum + frame_delay img))
      by lia.
    apply IH; lia.
Qed.

(** On animated cursors whose frames all have a positive delay,
    [wl_cursor_frame] computes what the specification describes. *)
Lemma wl_cursor_frame_positive_delays c time :
  cursor_wf c ->
  Forall (fun img => 0 < frame_delay img) (images c) ->
  image_count c <> 1 -> total_delay c <> 0 ->
  wl_cursor_frame c time
  = match spec_frame_at c time with
    | Some i => Ok i
    | None => Fault OutOfBounds
    end.
Proof.
  intros [Huint Htotal] Hpos Hcount Hdelay.
  unfold wl_cursor_frame, spec_frame_at.
  destruct (Z.eqb_spec (image_count c) 1); [contradiction |].
  destruct (Z.eqb_spec (total_delay c) 0); [contradiction |].
  pose proof (wrap32_range (sum_delays (images c))) as Hr.
  pose proof (Z.mod_pos_bound time (total_delay c) ltac:(lia)) as Ht.
  rewrite <- (Z.sub_0_r (time mod total_delay c)) at 1.
  apply frame_loop_spec_walk; [| lia | lia].
  rewrite Forall_forall in *. intros img Hin.
  specialize (Huint img Hin). specialize (Hpos img Hin).
  unfold is_uint in Huint. lia.
Qed.

(** C1 fails on the code: a frame whose delay is 0 stops the loop of
    [wl_cursor_frame].  The cursor built from two frames of 0 and 100
    milliseconds is at frame 0 at time 50, where the walk of the
    specification gives frame 1, the frame whose window is [0, 100). *)
Theorem wl_cursor_frame_zero_delay :
  exists c theme' w',
    wl_cursor_create_from_xcursor_images friendly
      (report "stuck" [0; 100]) (empty_theme 64) (world_of 64)
    = Ok ((Some c, theme'), w')
    /\ image_count c = 2 /\ total_delay c = 100
    /\ wl_cursor_frame c 50 = Ok 0
    /\ spec_frame_at c 50 = Some 1.
Proof.
  eexists _, _, _. split; [vm_compute; reflexivity |].
  vm_compute. repeat split; reflexivity.
Qed.

(** A cursor whose second image holds a buffer, at a time that falls on
    that image. *)
Lemma wl_cursor_frame_in_bounds_witness :
  cursor_wf three_frames_shown
  /\ wl_cursor_frame three_frames_shown 1000 = Ok 1
  /\ exists i, wl_cursor_frame three_frames_shown 1000 = Ok i
               /\ 0 <= i < image_count three_frames_shown.
Proof.
  assert (Hwf : cursor_wf three_frames_shown).
  { split; [| reflexivity].
    repeat constructor; unfold is_uint, modulus; cbn; lia. }
  split; [exact Hwf |]. split; [reflexivity |].
  apply (wl_cursor_frame_in_bounds three_frames_shown 1000 Hwf).
  - vm_compute. discriminate.
  - intros _. reflexivity.
Defined.

(** ** Total delay *)

Lemma sum_xdelays_positive xs :
  Forall (fun x => is_uint (xdelay x)) xs ->
  (exists x, In x xs /\ xdelay x <> 0) -> 0 < sum_xdelays xs.
Proof.
  induction 1 as [| y xs Hy Hxs IH]; intros (x & Hin & Hx).
  - contradiction.
  - assert (Hnonneg : 0 <= sum_xdelays xs).
    { clear - Hxs. induction Hxs as [| z l Hz _ IHl]; cbn; [lia |].
      fold (sum_xdelays l). unfold is_uint in Hz. lia. }
    cbn. fold (sum_xdelays xs). unfold is_uint in Hy.
    destruct Hin as [-> | Hin]; [lia |].
    specialize (IH (ex_intro _ x (conj Hin Hx))). lia.
Qed.

(** C5, amended: the [total_delay] of a cursor built from the loader's
    images is the sum of the frames' delays modulo 2^32; it is positive
    when some frame has a delay other than 0 and the sum is below 2^32. *)
Theorem total_delay_of_built_cursor E xi theme w c theme' w' :
  xcursor_wf xi ->
  wl_cursor_create_from_xcursor_images E xi theme w
    = Ok ((Some c, theme'), w') ->
  image_count c = nimage xi
  /\ total_delay c = wrap32 (sum_xdelays (ximages xi))
  /\ ((exists x, In x (ximages xi) /\ xdelay x <> 0) ->
      sum_xdelays (ximages xi) < modulus -> total_delay c > 0).
Proof.
  intros Hwf Hrun.
  apply wl_cursor_create_from_xcursor_images_inv in Hrun.
  destruct Hrun as (Himg & _ & Htot & _).
  split; [| split].
  - unfold image_count, nimage.
    rewrite <- (length_map image), Himg, length_map. reflexivity.
  - exact Htot.
  - intros Hsome Hsmall.
    pose proof (sum_xdelays_positive _ Hwf Hsome).
    rewrite Htot, wrap32_small by lia. lia.
Qed.

Lemma total_delay_of_built_cursor_witness :
  exists c theme' w',
    wl_cursor_create_from_xcursor_images friendly
      (report "wait" [100; 200; 150]) (empty_theme 64) (world_of 64)
    = Ok ((Some c, theme'), w')
    /\ image_count c = 3 /\ total_delay c = 450 /\ total_delay c > 0.
Proof.
  eexists _, _, _. split; [vm_compute; reflexivity |].
  destruct (total_delay_of_built_cursor friendly
              (report "wait" [100; 200; 150]) (empty_theme 64)
              (world_of 64) _ _ _
              ltac:(repeat constructor; discriminate)
              ltac:(vm_compute; reflexivity))
    as (Hcount & Htotal & Hpos).
  split; [exact Hcount |]. split; [exact Htotal |].
  apply Hpos.
  - exists (xframe 100). split; [left; reflexivity | discriminate].
  - reflexivity.
Defined.

(** C5 as stated fails: a cursor built from two frames of delay 0 has two
    images and a [total_delay] of 0. *)
Lemma total_delay_zero_with_two_frames :
  exists c theme' w',
    wl_cursor_create_from_xcursor_images friendly
      (report "still" [0; 0]) (empty_theme 64) (world_of 64)
    = Ok ((Some c, theme'), w')
    /\ image_count c > 1 /\ ~ total_delay c > 0.
Proof.
  eexists _, _, _. split; [vm_compute; reflexivity |].
  vm_compute. split; [reflexivity | intros H; discriminate H].
Defined.

(** ** Buffers *)

Lemma creation_requests_app l l' :
  creation_requests (l ++ l')
  = (creation_requests l + creation_requests l')%nat.
Proof. unfold creation_requests. now rewrite filter_app, length_app. Qed.

(** A call on an image that has a buffer asks for nothing. *)
Lemma get_buffer_cached E theme img w :
  buffer img <> NULL ->
  wl_cursor_image_get_buffer E theme img w = Ok ((buffer img, img), w).
Proof.
  intros Hb. unfold wl_cursor_image_get_buffer.
  destruct (Z.eqb_spec (buffer img) NULL); [contradiction | reflexivity].
Qed.

Lemma get_buffer_calls_cached E theme img n w :
  buffer img <> NULL ->
  get_buffer_calls E theme img n w = Ok ((repeat (buffer img) n, img), w).
Proof.
  intros Hb. induction n as [| n IH]; [reflexivity |].
  cbn [get_buffer_calls repeat].
  rewrite (bind_step _ _ _ _ _ (get_buffer_cached E theme img w Hb)).
  cbn [fst snd]. rewrite (bind_step _ _ _ _ _ IH). reflexivity.
Qed.

(** C7, amended: on an image without a buffer, when the creation request of
    the first call returns a buffer that is not null, that call has made
    exactly one creation request and has stored the buffer in the image,
    and every later call returns the same buffer, makes no request and
    changes nothing. *)
Theorem wl_cursor_image_get_buffer_once E theme img w b img1 w1 :
  buffer img = NULL ->
  wl_cursor_image_get_buffer E theme img w = Ok ((b, img1), w1) ->
  b <> NULL ->
  creation_requests (log w1) = S (creation_requests (log w))
  /\ buffer img1 = b
  /\ image img1 = image img /\ offset img1 = offset img
  /\ forall n w2,
       get_buffer_calls E theme img1 n w2 = Ok ((repeat b n, img1), w2).
Proof.
  intros Hnull Hrun Hb. unfold wl_cursor_image_get_buffer in Hrun.
  rewrite Hnull in Hrun. cbn [Z.eqb NULL] in Hrun.
  unfold wl_shm_pool_create_buffer, bind, ask, emit, ret in Hrun.
  cbn in Hrun. injection Hrun; clear Hrun; intros; subst w1 img1 b.
  cbn [log buffer set_buffer image offset].
  split; [rewrite creation_requests_app; cbn; lia |].
  repeat split.
  intros n w2.
  apply (get_buffer_calls_cached E theme
           (set_buffer img (new_buffer E (log w))) n w2).
  exact Hb.
Qed.

Lemma wl_cursor_image_get_buffer_once_witness :
  exists b img1 w1,
    wl_cursor_image_get_buffer friendly (empty_theme 64) (frame 0 0)
      (world_of 64) = Ok ((b, img1), w1)
    /\ creation_requests (log w1) = 1%nat
    /\ buffer img1 = b
    /\ get_buffer_calls friendly (empty_theme 64) img1 3 w1
       = Ok (([b; b; b], img1), w1).
Proof.
  eexists _, _, _. split; [vm_compute; reflexivity |].
  destruct (wl_cursor_image_get_buffer_once friendly (empty_theme 64)
              (frame 0 0) (world_of 64) _ _ _
              ltac:(reflexivity) ltac:(vm_compute; reflexivity)
              ltac:(discriminate))
    as (Hreq & Hbuf & _ & _ & Hlater).
  split; [exact Hreq |]. split; [exact Hbuf |].
  apply (Hlater 3%nat).
Defined.

(** C7 as stated fails when the client library returns no buffer at the
    first request: the image stays without one, the second call makes a
    second creation request and returns another buffer than the first
    call. *)
Lemma wl_cursor_image_get_buffer_asks_again :
  exists b img1 w1 b2 img2 w2,
    wl_cursor_image_get_buffer (with_new_buffer friendly null_at_first)
      (empty_theme 64) (frame 0 0) (world_of 64) = Ok ((b, img1), w1)
    /\ wl_cursor_image_get_buffer (with_new_buffer friendly null_at_first)
         (empty_theme 64) img1 w1 = Ok ((b2, img2), w2)
    /\ b = NULL /\ buffer img1 = NULL
    /\ b2 <> b
    /\ creation_requests (log w1) = 1%nat
    /\ creation_requests (log w2) = 2%nat.
Proof.
  eexists _, _, _, _, _, _. split; [vm_compute; reflexivity |].
  split; [vm_compute; reflexivity |].
  vm_compute. repeat split; try reflexivity. discriminate.
Defined.

(** ** Allocation failure while a cursor is built *)

(** The result of [shm_pool_allocate] is not tested: when it is -1 the
    pixels are copied to [pool->data - 1], outside the mapping, and the
    loop does not return. *)
Lemma xcursor_images_loop_allocation_failure
    E x todo theme done tot w w1 p w2 :
  malloc E w = Ok (true, w1) ->
  shm_pool_allocate E (theme_pool theme)
    (to_int (xwidth x * xheight x * 4)) w1 = Ok ((-1, p), w2) ->
  xcursor_images_loop E (x :: todo) theme done tot w = Fault OutOfBounds.
Proof.
  intros Hmalloc Halloc. cbn [xcursor_images_loop].
  rewrite (bind_step _ _ _ _ _ Hmalloc). cbn [negb].
  cbn [xcursor_frame width height].
  rewrite (bind_step _ _ _ _ _ Halloc). cbn [fst snd].
  unfold bind at 1, memcpy_to_pool.
  destruct (data p); reflexivity.
Qed.

(** C4 fails on the code: with a pool of 4 bytes that cannot grow, the
    allocation for the 16 bytes of the first cursor's frame fails, the
    pixels are copied out of bounds, and the load does not go on to the
    second cursor. *)
Theorem wl_cursor_theme_load_allocation_failure :
  wl_cursor_theme_load
    (with_files no_growth
       [ {| ximages := [big_xframe]; xname := "big" |};
         report "small" [0] ])
    (Some "t"%string) 1 empty_world
  = Fault OutOfBounds.
Proof. vm_compute. reflexivity. Qed.

(** With a pool that can grow the same theme loads both cursors. *)
Lemma wl_cursor_theme_load_both :
  exists theme w,
    wl_cursor_theme_load
      (with_files friendly
         [ {| ximages := [big_xframe]; xname := "big" |};
           report "small" [0] ])
      (Some "t"%string) 1 empty_world
    = Ok (Some theme, w)
    /\ cursor_count theme = 2.
Proof.
  eexists _, _. split; vm_compute; reflexivity.
Qed.

(** ** Loading a theme *)

Lemma get_cursor_loop_none cs nm :
  get_cursor_loop cs nm = Ok None -> named nm cs = [].
Proof.
  induction cs as [| [c |] cs IH]; cbn; [reflexivity | | discriminate].
  destruct (name c) as [s |]; [| discriminate].
  destruct (String.eqb nm s); [discriminate | exact IH].
Qed.

Lemma get_cursor_loop_some cs nm c :
  get_cursor_loop cs nm = Ok (Some c) -> named nm cs <> [].
Proof.
  induction cs as [| [c' |] cs IH]; cbn; try discriminate.
  destruct (name c') as [s |]; [| discriminate].
  destruct (String.eqb nm s); [discriminate | exact IH].
Qed.

Lemma named_app nm cs cs' : named nm (cs ++ cs') = named nm cs ++ named nm cs'.
Proof. apply filter_app. Qed.

(** What one call of [load_callback] does when it returns: the cursor was
    there and nothing changes, or the cursor could not be created and the
    array is the same, or the cursor built from the report is appended. *)
Lemma load_callback_inv E xi theme w theme' w' :
  load_callback E xi theme w = Ok (theme', w') ->
  (named (xname xi) (cursors theme) <> [] /\ theme' = theme /\ w' = w)
  \/ (named (xname xi) (cursors theme) = []
      /\ (exists th w1,
            wl_cursor_create_from_xcursor_images E xi theme w
            = Ok ((None, th), w1))
      /\ cursors theme' = cursors theme)
  \/ (named (xname xi) (cursors theme) = []
      /\ exists c th w1,
           wl_cursor_create_from_xcursor_images E xi theme w
           = Ok ((Some c, th), w1)
           /\ cursors theme' = cursors theme ++ [Some c]).
Proof.
  unfold load_callback. intros H.
  bind_at H as found w1 Hfound.
  unfold pure, wl_cursor_theme_get_cursor in Hfound.
  destruct (get_cursor_loop (cursors theme) (xname xi)) as [r | why] eqn:Hget;
    [| discriminate].
  injection Hfound; clear Hfound; intros; subst w1 found.
  destruct r as [c0 |].
  - left. ret_inv H. split; [| auto].
    eapply get_cursor_loop_some; eassumption.
  - apply get_cursor_loop_none in Hget. right.
    bind_at H as r w2 Hcreate. destruct r as [[c |] th]; cbn [fst snd] in H.
    + right. split; [exact Hget |].
      bind_at H as ok w3 Hmalloc.
      destruct ok; cbn [negb] in H; [| discriminate].
      ret_inv H. cbn [cursors set_cursors].
      exists c, th, w2. split; [exact Hcreate |].
      apply wl_cursor_create_from_xcursor_images_inv in Hcreate.
      destruct Hcreate as (_ & _ & _ & _ & Hcur). now rewrite Hcur.
    + left. ret_inv H. split; [exact Hget |].
      split; [exists theme', w'; exact Hcreate |].
      revert Hcreate. unfold wl_cursor_create_from_xcursor_images.
      intros H.
      bind_at H as ok1 w3 Hm1.
      destruct ok1; cbn [negb] in H; [| ret_inv H; reflexivity].
      bind_at H as ok2 w4 Hm2.
      destruct ok2; cbn [negb] in H; [| ret_inv H; reflexivity].
      bind_at H as nm w5 Hnm. bind_at H as r w6 Hloop.
      unfold ret in H. discriminate H.
Qed.

Lemma has_name_created E xi theme w c th w1 nm :
  wl_cursor_create_from_xcursor_images E xi theme w = Ok ((Some c, th), w1) ->
  nm <> xname xi -> has_name nm (Some c) = false.
Proof.
  intros Hcreate Hnm.
  apply wl_cursor_create_from_xcursor_images_inv in Hcreate.
  destruct Hcreate as (_ & _ & _ & [Hname | Hname] & _);
    cbn; rewrite Hname; [| reflexivity].
  now apply String.eqb_neq.
Qed.

(** A report does not touch the cursors of other names. *)
Lemma load_callback_other_name E xi theme w theme' w' nm :
  load_callback E xi theme w = Ok (theme', w') ->
  nm <> xname xi ->
  named nm (cursors theme') = named nm (cursors theme).
Proof.
  intros H Hnm. apply load_callback_inv in H.
  destruct H as [(_ & -> & _) | [(_ & _ & ->) | (_ & c & th & w1 & Hc & ->)]];
    try reflexivity.
  rewrite named_app. unfold named at 2. cbn [filter].
  rewrite (has_name_created _ _ _ _ _ _ _ _ Hc Hnm).
  apply app_nil_r.
Qed.

(** A report whose name is in the theme is discarded: the theme and the
    world stay as they are. *)
Lemma load_callback_discards E xi theme w theme' w' :
  load_callback E xi theme w = Ok (theme', w') ->
  named (xname xi) (cursors theme) <> [] ->
  theme' = theme /\ w' = w.
Proof.
  intros H Hnamed. apply load_callback_inv in H.
  destruct H as [(_ & -> & ->) | [(Habs & _) | (Habs & _)]];
    [auto | contradiction | contradiction].
Qed.

Lemma load_callback_present E xi theme w theme' w' nm :
  load_callback E xi theme w = Ok (theme', w') ->
  named nm (cursors theme) <> [] ->
  named nm (cursors theme') = named nm (cursors theme).
Proof.
  intros H Hnamed.
  destruct (string_dec nm (xname xi)) as [-> | Hne].
  - destruct (load_callback_discards _ _ _ _ _ _ H Hnamed) as [-> _].
    reflexivity.
  - eapply load_callback_other_name; eassumption.
Qed.

Lemma xcursor_load_theme_app E l1 l2 theme w :
  xcursor_load_theme E (l1 ++ l2) theme w
  = bind (xcursor_load_theme E l1 theme) (xcursor_load_theme E l2) w.
Proof.
  revert theme w. induction l1 as [| xi l1 IH]; intros theme w.
  - reflexivity.
  - cbn [app xcursor_load_theme]. unfold bind.
    destruct (load_callback E xi theme w) as [[th w1] | why];
      [| reflexivity].
    rewrite IH. reflexivity.
Qed.

Lemma xcursor_load_theme_absent E found nm :
  ~ In nm (map xname found) ->
  forall theme w theme' w',
    xcursor_load_theme E found theme w = Ok (theme', w') ->
    named nm (cursors theme') = named nm (cursors theme).
Proof.
  induction found as [| xi found IH]; intros Hnot theme w theme' w' H.
  - cbn in H. ret_inv H. reflexivity.
  - cbn [xcursor_load_theme] in H. bind_at H as th w1 Hcb.
    cbn [map In] in Hnot.
    rewrite (IH ltac:(tauto) _ _ _ _ H).
    eapply load_callback_other_name; [eassumption |].
    intros ->. tauto.
Qed.

Lemma xcursor_load_theme_present E found nm :
  forall theme w theme' w',
    xcursor_load_theme E found theme w = Ok (theme', w') ->
    named nm (cursors theme) <> [] ->
    named nm (cursors theme') = named nm (cursors theme).
Proof.
  induction found as [| xi found IH]; intros theme w theme' w' H Hnamed.
  - cbn in H. ret_inv H. reflexivity.
  - cbn [xcursor_load_theme] in H. bind_at H as th w1 Hcb.
    pose proof (load_callback_present _ _ _ _ _ _ nm Hcb Hnamed) as Hstep.
    rewrite (IH _ _ _ _ H); rewrite Hstep; [reflexivity | exact Hnamed].
Qed.

(** The cursor created for the first report of a name is, at the end of
    the loader's run, the only cursor of that name. *)
Lemma first_report_kept
    E before first after theme0 w0 theme1 w1 c theme2 w2 theme_end w_end :
  cursors theme0 = [] ->
  ~ In (xname first) (map xname before) ->
  xcursor_load_theme E before theme0 w0 = Ok (theme1, w1) ->
  wl_cursor_create_from_xcursor_images E first theme1 w1
    = Ok ((Some c, theme2), w2) ->
  name c = Some (xname first) ->
  xcursor_load_theme E (before ++ first :: after) theme0 w0
    = Ok (theme_end, w_end) ->
  named (xname first) (cursors theme_end) = [Some c].
Proof.
  intros Hempty Hfirst Hbefore Hcreate Hname Hrun.
  rewrite xcursor_load_theme_app in Hrun.
  rewrite (bind_step _ _ _ _ _ Hbefore) in Hrun.
  cbn [xcursor_load_theme] in Hrun. bind_at Hrun as theme3 w3 Hcb.
  assert (Habsent : named (xname first) (cursors theme1) = []).
  { rewrite (xcursor_load_theme_absent E before _ Hfirst _ _ _ _ Hbefore).
    now rewrite Hempty. }
  assert (Hthere : named (xname first) (cursors theme3) = [Some c]).
  { apply load_callback_inv in Hcb.
    destruct Hcb as [(Hne & _) | [(_ & (th & w4 & Hnone) & _)
                                 | (_ & c' & th & w4 & Hsome & ->)]].
    - contradiction.
    - rewrite Hcreate in Hnone. discriminate.
    - rewrite Hcreate in Hsome. injection Hsome as <- _ _.
      rewrite named_app, Habsent. cbn. rewrite Hname, String.eqb_refl.
      reflexivity. }
  rewrite (xcursor_load_theme_present E after _ _ _ _ _ Hrun);
    rewrite Hthere; [reflexivity | discriminate].
Qed.

(** C8, amended: when the loader reports a name several times and the
    cursor object of the first report of that name is created (its
    [malloc]s and the [strdup] of its name succeed), the theme at the end
    of the load holds exactly one cursor of that name, the one built from
    the first report, with the frames of that report; every later report of
    that name leaves the theme and the pool as they are. *)
Theorem xcursor_load_theme_first_report
    E before first after theme0 w0 theme1 w1 c theme2 w2 theme_end w_end :
  cursors theme0 = [] ->
  ~ In (xname first) (map xname before) ->
  xcursor_load_theme E before theme0 w0 = Ok (theme1, w1) ->
  wl_cursor_create_from_xcursor_images E first theme1 w1
    = Ok ((Some c, theme2), w2) ->
  name c = Some (xname first) ->
  xcursor_load_theme E (before ++ first :: after) theme0 w0
    = Ok (theme_end, w_end) ->
  named (xname first) (cursors theme_end) = [Some c]
  /\ map image (images c) = map xcursor_frame (ximages first)
  /\ total_delay c = wrap32 (sum_xdelays (ximages first))
  /\ forall later theme w theme' w',
       xname later = xname first ->
       named (xname first) (cursors theme) = [Some c] ->
       load_callback E later theme w = Ok (theme', w') ->
       theme' = theme /\ w' = w.
Proof.
  intros Hempty Hfirst Hbefore Hcreate Hname Hrun.
  pose proof (wl_cursor_create_from_xcursor_images_inv _ _ _ _ _ _ _ Hcreate)
    as (Himg & _ & Htot & _).
  split; [| split; [exact Himg | split; [exact Htot |]]].
  - eapply first_report_kept; eassumption.
  - intros later theme w theme' w' Hsame Hin Hlater.
    apply (load_callback_discards _ _ _ _ _ _ Hlater).
    rewrite Hsame, Hin. discriminate.
Qed.

(** [wl_cursor_theme_load] returns the theme the loader's reports built
    whenever they built a cursor. *)
Lemma wl_cursor_theme_load_inv E nm sz w theme w' :
  wl_cursor_theme_load E nm sz w = Ok (Some theme, w') ->
  exists p tn w1 theme1 w2,
    xcursor_load_theme E
      (xcursor_files E
         match nm with Some s => s | None => "default"%string end sz)
      {| cursors := []; theme_pool := p; theme_name := tn;
         theme_size := sz |} w1 = Ok (theme1, w2)
    /\ (cursors theme1 <> [] -> theme = theme1 /\ w' = w2).
Proof.
  unfold wl_cursor_theme_load. intros H.
  bind_at H as ok w1 Hmalloc.
  destruct ok; cbn [negb] in H; [| ret_inv H; discriminate].
  bind_at H as tn w2 Hname.
  match type of H with
  | (if negb ?b then _ else _) _ = _ => destruct b
  end; cbn [negb] in H; [| discriminate].
  bind_at H as p w3 Hpool. destruct p as [p |]; [| ret_inv H; discriminate].
  bind_at H as theme1 w4 Hload.
  exists p, tn, w3, theme1, w4. split; [exact Hload |].
  intros Hsome. unfold cursor_count in H.
  destruct (cursors theme1) as [| c cs] eqn:Hcs; [contradiction |].
  cbn [length] in H.
  destruct (Z.eqb_spec (Z.of_nat (S (length cs))) 0) as [Hz | _]; [lia |].
  ret_inv H. auto.
Qed.

(** The same for [wl_cursor_theme_load]: the loader starts on a theme
    without cursors, reaches the first report of a name in some state, and
    the cursor created there, if one is, is the only cursor of that name
    in the theme returned. *)
Lemma wl_cursor_theme_load_first_report
    E nm sz w theme w_end before first after :
  wl_cursor_theme_load E nm sz w = Ok (Some theme, w_end) ->
  xcursor_files E match nm with Some s => s | None => "default"%string end sz
    = before ++ first :: after ->
  ~ In (xname first) (map xname before) ->
  exists theme0 w0 theme1 w1,
    cursors theme0 = []
    /\ xcursor_load_theme E before theme0 w0 = Ok (theme1, w1)
    /\ forall c theme2 w2,
         wl_cursor_create_from_xcursor_images E first theme1 w1
           = Ok ((Some c, theme2), w2) ->
         name c = Some (xname first) ->
         named (xname first) (cursors theme) = [Some c].
Proof.
  intros Hload Hfiles Hfirst.
  destruct (wl_cursor_theme_load_inv _ _ _ _ _ _ Hload)
    as (p & tn & w0 & theme_end & w2 & Hrun & Hsame).
  rewrite Hfiles in Hrun. pose proof Hrun as Hsplit.
  rewrite xcursor_load_theme_app in Hsplit.
  bind_at Hsplit as theme1 w1 Hbefore.
  exists {| cursors := []; theme_pool := p; theme_name := tn;
            theme_size := sz |}, w0, theme1, w1.
  split; [reflexivity |].
  split; [exact Hbefore |].
  intros c theme2 w3 Hcreate Hname.
  pose proof (first_report_kept E before first after
                {| cursors := []; theme_pool := p; theme_name := tn;
                   theme_size := sz |}
                w0 theme1 w1 c theme2 w3 theme_end w2
                eq_refl Hfirst Hbefore Hcreate Hname Hrun) as Hkept.
  destruct (Hsame ltac:(intros Hnil; rewrite Hnil in Hkept; discriminate))
    as [-> _].
  exact Hkept.
Qed.

Lemma xcursor_load_theme_first_report_witness :
  exists theme_end w_end c,
    xcursor_load_theme friendly
      ([report "b" [5]] ++ report "a" [10]
         :: [report "a" [20]; report "c" [7]])
      (empty_theme 64) (world_of 64) = Ok (theme_end, w_end)
    /\ named "a" (cursors theme_end) = [Some c]
    /\ map image (images c) = map xcursor_frame (ximages (report "a" [10])).
Proof.
  eassert (Hb : xcursor_load_theme friendly [report "b" [5]]
                  (empty_theme 64) (world_of 64) = Ok (_, _))
    by (vm_compute; reflexivity).
  lazymatch type of Hb with
  | _ = Ok (?t1, ?w1) =>
      eassert (Hc : wl_cursor_create_from_xcursor_images friendly
                      (report "a" [10]) t1 w1 = Ok ((Some _, _), _))
        by (vm_compute; reflexivity)
  end.
  eassert (Hr : xcursor_load_theme friendly
                  ([report "b" [5]] ++ report "a" [10]
                     :: [report "a" [20]; report "c" [7]])
                  (empty_theme 64) (world_of 64) = Ok (_, _))
    by (vm_compute; reflexivity).
  destruct (xcursor_load_theme_first_report friendly
              [report "b" [5]] (report "a" [10])
              [report "a" [20]; report "c" [7]]
              (empty_theme 64) (world_of 64) _ _ _ _ _ _ _
              eq_refl
              ltac:(cbn; intros [Heq | []]; discriminate Heq)
              Hb Hc eq_refl Hr)
    as (Hnamed & Himg & _).
  eexists _, _, _. split; [exact Hr |]. split; [exact Hnamed | exact Himg].
Defined.

(** C8 as stated fails when the cursor object of the first report cannot
    be allocated: the load goes on, the second report of the name is built
    and the theme ends with a cursor that has the frames of the second
    report. *)
Lemma wl_cursor_theme_load_second_report :
  exists theme w c,
    wl_cursor_theme_load
      (with_files (with_malloc friendly (malloc_fails_at 3))
         [report "a" [10]; report "a" [20]])
      (Some "t"%string) 1 empty_world = Ok (Some theme, w)
    /\ named "a" (cursors theme) = [Some c]
    /\ map image (images c) = map xcursor_frame (ximages (report "a" [20]))
    /\ map image (images c) <> map xcursor_frame (ximages (report "a" [10])).
Proof.
  eexists _, _, _. split; [vm_compute; reflexivity |].
  split; [vm_compute; reflexivity |].
  split; [vm_compute; reflexivity |].
  vm_compute. intros H. discriminate H.
Defined.

(** * Properties of the layout, the loader and the teardown *)


(** ** Allocating and copying *)

Lemma to_int_range x : is_int (to_int x).
Proof.
  unfold is_int, to_int. pose proof (wrap32_range x) as H.
  unfold modulus, INT_MAX in *.
  destruct (Z.leb_spec (wrap32 x) (2 ^ 31 - 1)); lia.
Qed.

Lemma malloc_file E w ok w1 :
  malloc E w = Ok (ok, w1) ->
  file_len w1 = file_len w /\ file_ops w1 = file_ops w.
Proof.
  unfold malloc, bind, ask, emit, ret. intros H.
  injection H; clear H; intros; subst. auto.
Qed.

Lemma file_at_same w w1 i :
  file_len w1 = file_len w -> file_ops w1 = file_ops w ->
  file_at w1 i = file_at w i.
Proof. unfold file_at, file_byte. now intros -> ->. Qed.

Lemma memcpy_to_pool_mapped p off src n w u w1 :
  memcpy_to_pool p off src n w = Ok (u, w1) ->
  exists len, data p = Mapped len /\ off + n <= len.
Proof.
  unfold memcpy_to_pool. destruct (data p) as [len |]; [| discriminate].
  destruct (Z.leb_spec 0 off); cbn [andb]; [| discriminate].
  destruct (Z.leb_spec 0 n); cbn [andb]; [| discriminate].
  destruct (Z.leb_spec (off + n) len); cbn [andb]; [| discriminate].
  intros _. exists len. auto.
Qed.

(** An allocation whose copy goes through took its range at [used], kept the
    pool consistent and every byte handed out before in place, and left the
    copied bytes in the file. *)
Lemma allocate_copy_inv E p sz src w o p' w1 u w2 :
  pool_inv p -> is_int sz ->
  shm_pool_allocate E p sz w = Ok ((o, p'), w1) ->
  memcpy_to_pool p' o src sz w1 = Ok (u, w2) ->
  0 <= sz /\ o = used p /\ used p' = used p + sz
  /\ pool_inv p' /\ pool p' = pool p /\ fd p' = fd p
  /\ size p <= size p'
  /\ (forall i b, 0 <= i < used p ->
        file_at w i = Some b -> file_at w2 i = Some b)
  /\ holds_bytes w2 o sz src.
Proof.
  intros [[Hused Hsize] Hdata] Hsz Halloc Hcopy.
  destruct (memcpy_to_pool_mapped _ _ _ _ _ _ _ Hcopy) as (len & Hmap & Hlen).
  destruct (memcpy_to_pool_inv _ _ _ _ _ _ _ Hcopy)
    as (Hoff & Hn & Hfile & Hflen & _ & Hbytes & Hrest).
  unfold is_int, INT_MAX in *.
  revert Halloc. unfold shm_pool_allocate.
  rewrite wrap32_small by (unfold modulus; lia).
  destruct (Z.gtb_spec (used p + sz) (size p)) as [Hgrow | Hfit].
  - set (n := to_int (2 * size p + sz)).
    destruct ((0 <=? n) && ftruncate_ok E (log w) n) eqn:Hok.
    + destruct (shm_pool_resize_done E p n w Hok) as (ok & Hres).
      rewrite (bind_step _ _ _ _ _ Hres). cbn [fst snd Z.eqb].
      unfold ret, bump. cbn [used size data pool fd].
      intros Heq. injection Heq; clear Heq; intros; subst o p' w1.
      assert (Hn0 : 0 <= n) by (apply andb_prop in Hok; lia).
      pose proof (to_int_range (2 * size p + sz)) as Hnr.
      fold n in Hnr. unfold is_int, INT_MAX in Hnr.
      rewrite (to_int_small (used p)) in * by (unfold INT_MAX; lia).
      cbn [data] in Hmap. destruct ok; [| discriminate].
      injection Hmap as <-.
      assert (Hval : n = 2 * size p + sz).
      { destruct (Z.lt_ge_cases (2 * size p + sz) (2 ^ 32)) as [Hlt | Hge].
        - destruct (Z.le_gt_cases (2 * size p + sz) (2 ^ 31 - 1)).
          + apply to_int_small. unfold INT_MAX. lia.
          + unfold n in Hn0.
            rewrite to_int_big in Hn0 by (unfold INT_MAX, modulus; lia).
            unfold modulus in Hn0. lia.
        - exfalso. unfold n, to_int in Hlen, Hnr, Hn0.
          assert (Hw : wrap32 (2 * size p + sz) = 2 * size p + sz - 2 ^ 32).
          { unfold wrap32, modulus.
            replace (2 * size p + sz)
              with ((2 * size p + sz - 2 ^ 32) + 1 * 2 ^ 32) at 1 by ring.
            rewrite Z.mod_add by lia. apply Z.mod_small. lia. }
          rewrite Hw in *. unfold INT_MAX, modulus in *.
          destruct (Z.leb_spec (2 * size p + sz - 2 ^ 32) (2 ^ 31 - 1)); lia. }
      cbn [used size pool fd data].
      rewrite (wrap32_small n) by (unfold modulus; lia).
      rewrite (wrap32_small (used p + sz)) by (unfold modulus; lia).
      split; [lia |]. split; [reflexivity |]. split; [reflexivity |].
      split; [unfold pool_inv, pool_ok, INT_MAX; cbn [used size data];
              split; [lia | right; reflexivity] |].
      split; [reflexivity |]. split; [reflexivity |]. split; [lia |].
      split; [| exact Hbytes].
      intros i b Hi Hb. rewrite Hrest by lia.
      apply file_at_some in Hb. destruct Hb as [Hil Hb].
      unfold file_at, file_byte, resize_bytes.
      cbn [file_len file_ops byte_of].
      destruct (Z.leb_spec 0 i); [| lia].
      destruct (Z.ltb_spec i n); [| lia].
      destruct (Z.ltb_spec i (Z.min (file_len w) n)); [| lia].
      cbn. now subst b.
    + rewrite (bind_step _ _ _ _ _ (shm_pool_resize_refused E p n w Hok)).
      cbn [fst snd Z.eqb]. unfold ret. intros Heq.
      injection Heq; intros; subst. lia.
  - unfold ret, bump. intros Heq.
    injection Heq; clear Heq; intros; subst o p' w1.
    rewrite (to_int_small (used p)) in * by (unfold INT_MAX; lia).
    cbn [used size pool fd data] in *.
    rewrite (wrap32_small (used p + sz)) by (unfold modulus; lia).
    split; [lia |]. split; [reflexivity |]. split; [reflexivity |].
    split; [unfold pool_inv, pool_ok, INT_MAX; cbn [used size data];
            split; [lia | exact Hdata] |].
    split; [reflexivity |]. split; [reflexivity |]. split; [lia |].
    split; [| exact Hbytes].
    intros i b Hi Hb. rewrite Hrest by lia. exact Hb.
Qed.

(** ** Pixels in the pool *)

(** The loop of [wl_cursor_create_from_xcursor_images], when it returns,
    has given the images consecutive ranges from [used] on, has left the
    pixels of every image in its range and has not touched the bytes handed
    out before. *)
Lemma xcursor_images_loop_pool E todo :
  forall theme done tot w r w',
    pool_inv (theme_pool theme) ->
    xcursor_images_loop E todo theme done tot w = Ok (r, w') ->
    pool_inv (theme_pool (snd r))
    /\ pool (theme_pool (snd r)) = pool (theme_pool theme)
    /\ size (theme_pool theme) <= size (theme_pool (snd r))
    /\ used (theme_pool (snd r))
       = used (theme_pool theme) + total (map frame_size todo)
    /\ (forall i b, 0 <= i < used (theme_pool theme) ->
          file_at w i = Some b -> file_at w' i = Some b)
    /\ exists new,
         fst (fst r) = done ++ new
         /\ map offset new
            = bump_offsets (used (theme_pool theme)) (map frame_size todo)
         /\ map image new = map xcursor_frame todo
         /\ Forall (fun x => 0 <= frame_size x) todo
         /\ Forall2 (fun x img =>
                       holds_bytes w' (offset img) (frame_size x) (pixels x)
                       /\ used (theme_pool theme) <= offset img
                       /\ offset img + frame_size x
                          <= used (theme_pool (snd r)))
              todo new.
Proof.
  induction todo as [| x todo IH]; intros theme done tot w r w' Hinv H.
  - cbn in H. ret_inv H. cbn [fst snd map total fold_right bump_offsets].
    split; [exact Hinv |]. split; [reflexivity |]. split; [lia |].
    split; [lia |]. split; [auto |].
    exists []. rewrite app_nil_r. repeat split; constructor.
  - cbn [xcursor_images_loop] in H.
    bind_at H as ok w1 Hmalloc.
    destruct ok; cbn [negb] in H; [| discriminate].
    bind_at H as a w2 Halloc. destruct a as [o p1]. cbn [fst snd] in H.
    bind_at H as u w3 Hcopy.
    cbn [xcursor_frame width height] in Halloc, Hcopy.
    fold (frame_size x) in Halloc, Hcopy.
    destruct (malloc_file _ _ _ _ Hmalloc) as [Hfl Hfo].
    destruct (allocate_copy_inv E _ _ _ _ _ _ _ _ _ Hinv
                (to_int_range _) Halloc Hcopy)
      as (Hsz & -> & Hused1 & Hinv1 & Hpool1 & _ & Hsize1 & Hkeep1 & Hhold1).
    fold (frame_size x) in *.
    apply IH in H; [| exact Hinv1].
    cbn [theme_pool set_pool] in H.
    destruct H as (Hinv' & Hpool' & Hsize' & Hused' & Hkeep'
                   & new & Hnew & Hoffs & Himg & Hpos & Hhold').
    pose proof Hinv as [[Hu0 _] _].
    split; [exact Hinv' |]. split; [congruence |]. split; [lia |].
    split.
    { rewrite Hused', Hused1. cbn [map total fold_right].
      fold (total (map frame_size todo)). lia. }
    split.
    { intros i b Hi Hb. apply Hkeep'; [lia |]. apply Hkeep1; [lia |].
      rewrite (file_at_same w w1) by assumption. exact Hb. }
    eexists (_ :: new). rewrite Hnew, <- app_assoc.
    split; [reflexivity |]. cbn [map offset image bump_offsets].
    split; [rewrite Hoffs, Hused1; reflexivity |].
    split; [rewrite Himg; reflexivity |].
    split; [constructor; assumption |].
    assert (Htot : 0 <= total (map frame_size todo)).
    { clear - Hpos. induction Hpos as [| y l Hy _ IHl]; cbn; [lia |].
      fold (total (map frame_size l)). lia. }
    constructor.
    + cbn [offset]. split; [| lia].
      intros k Hk.
      specialize (Hhold1 k Hk). apply Hkeep'; [lia | exact Hhold1].
    + eapply Forall2_impl; [| exact Hhold'].
      cbn beta. intros y img (Hb & Hlo & Hhi). repeat split; auto. lia.
Qed.

Lemma bump_offsets_tiles sizes :
  Forall (fun s => 0 <= s) sizes ->
  forall start ranges,
    map fst ranges = bump_offsets start sizes ->
    map snd ranges = sizes ->
    tiles start ranges (start + total sizes).
Proof.
  induction 1 as [| s sizes Hs _ IH]; intros start ranges Hfst Hsnd.
  - destruct ranges; [| discriminate]. cbn. lia.
  - destruct ranges as [| [o s'] ranges]; [discriminate |].
    cbn in Hfst, Hsnd. injection Hfst as -> Hfst. injection Hsnd as -> Hsnd.
    cbn [tiles total fold_right]. fold (total sizes).
    split; [reflexivity |]. split; [assumption |].
    replace (start + (s + total sizes)) with (start + s + total sizes) by lia.
    now apply IH.
Qed.

Lemma image_size_frame img x :
  image img = xcursor_frame x -> image_size img = frame_size x.
Proof. unfold image_size, frame_size. now intros ->. Qed.

Lemma map_image_size imgs xs :
  map image imgs = map xcursor_frame xs ->
  map image_size imgs = map frame_size xs.
Proof.
  revert xs. induction imgs as [| img imgs IH]; intros [| x xs] H;
    try discriminate; [reflexivity |].
  cbn in H. injection H as Himg Hrest. cbn.
  rewrite (image_size_frame _ _ Himg). f_equal. now apply IH.
Qed.

(** What a cursor built from the loader's images looks like in the pool:
    the helper the properties below share. *)
Lemma created_cursor_pool E xi theme w c theme' w' :
  pool_inv (theme_pool theme) ->
  wl_cursor_create_from_xcursor_images E xi theme w
    = Ok ((Some c, theme'), w') ->
  pool_inv (theme_pool theme')
  /\ pool (theme_pool theme') = pool (theme_pool theme)
  /\ size (theme_pool theme) <= size (theme_pool theme')
  /\ used (theme_pool theme')
     = used (theme_pool theme) + total (map frame_size (ximages xi))
  /\ (forall i b, 0 <= i < used (theme_pool theme) ->
        file_at w i = Some b -> file_at w' i = Some b)
  /\ map offset (images c)
     = bump_offsets (used (theme_pool theme)) (map frame_size (ximages xi))
  /\ Forall (fun x => 0 <= frame_size x) (ximages xi)
  /\ Forall2 (fun x img =>
                holds_bytes w' (offset img) (frame_size x) (pixels x)
                /\ used (theme_pool theme) <= offset img
                /\ offset img + frame_size x <= used (theme_pool theme'))
       (ximages xi) (images c).
Proof.
  intros Hinv H. unfold wl_cursor_create_from_xcursor_images in H.
  bind_at H as ok1 w1 Hm1.
  destruct ok1; cbn [negb] in H; [| ret_inv H; discriminate].
  bind_at H as ok2 w2 Hm2.
  destruct ok2; cbn [negb] in H; [| ret_inv H; discriminate].
  bind_at H as nm w3 Hnm. bind_at H as r w4 Hloop.
  ret_inv H. cbn [images].
  destruct (xcursor_images_loop_pool E _ _ _ _ _ _ _ Hinv Hloop)
    as (Hinv' & Hpool' & Hsize' & Hused' & Hkeep'
        & new & Hnew & Hoffs & Himg & Hpos & Hhold').
  rewrite Hnew. cbn [app].
  destruct (malloc_file _ _ _ _ Hm1) as [Hl1 Ho1].
  destruct (malloc_file _ _ _ _ Hm2) as [Hl2 Ho2].
  assert (Hs : file_len w3 = file_len w2 /\ file_ops w3 = file_ops w2).
  { unfold strdup in Hnm. bind_at Hnm as ok w5 Hm3. ret_inv Hnm.
    eapply malloc_file; eassumption. }
  destruct Hs as [Hl3 Ho3].
  split; [exact Hinv' |]. split; [exact Hpool' |]. split; [exact Hsize' |].
  split; [exact Hused' |].
  split; [| split; [exact Hoffs | split; [exact Hpos | exact Hhold']]].
  intros i b Hi Hb. apply Hkeep'; [assumption |].
  rewrite (file_at_same w w3) by congruence. exact Hb.
Qed.

(** ** The pool of a theme *)

Lemma tiles_app a l1 b l2 c :
  tiles a l1 b -> tiles b l2 c -> tiles a (l1 ++ l2) c.
Proof.
  revert a. induction l1 as [| [o s] l1 IH]; intros a H1 H2; cbn in *.
  - now subst.
  - destruct H1 as (-> & Hs & H1). repeat split; auto.
Qed.

Lemma tiles_le a l b : tiles a l b -> a <= b.
Proof.
  revert a. induction l as [| [o s] l IH]; intros a H; cbn in H.
  - lia.
  - destruct H as (_ & Hs & H). apply IH in H. lia.
Qed.

Lemma tiles_in a l b o s :
  tiles a l b -> In (o, s) l -> a <= o /\ 0 <= s /\ o + s <= b.
Proof.
  revert a. induction l as [| [o' s'] l IH]; intros a H Hin; cbn in H.
  - contradiction.
  - destruct H as (-> & Hs & H). destruct Hin as [Heq | Hin].
    + injection Heq as -> ->. apply tiles_le in H. lia.
    + destruct (IH _ H Hin) as (? & ? & ?). lia.
Qed.


Lemma theme_ranges_app l1 l2 :
  theme_ranges (l1 ++ l2) = theme_ranges l1 ++ theme_ranges l2.
Proof. unfold theme_ranges. apply flat_map_app. Qed.

(** The ranges of a cursor built from the loader's images fill the pool
    from the old [used] to the new. *)
Lemma created_cursor_tiles E xi theme w c theme' w' :
  pool_inv (theme_pool theme) ->
  wl_cursor_create_from_xcursor_images E xi theme w
    = Ok ((Some c, theme'), w') ->
  tiles (used (theme_pool theme)) (cursor_ranges c)
    (used (theme_pool theme')).
Proof.
  intros Hinv H.
  destruct (created_cursor_pool _ _ _ _ _ _ _ Hinv H)
    as (_ & _ & _ & -> & _ & Hoffs & Hpos & _).
  apply wl_cursor_create_from_xcursor_images_inv in H.
  destruct H as (Himg & _).
  apply bump_offsets_tiles.
  - now apply Forall_map.
  - unfold cursor_ranges. rewrite map_map. cbn [fst]. exact Hoffs.
  - unfold cursor_ranges. rewrite map_map. cbn [snd].
    now apply map_image_size.
Qed.

(** A cursor that could not be allocated leaves the theme and the file as
    they were. *)
Lemma not_created_inv E xi theme w th w1 :
  wl_cursor_create_from_xcursor_images E xi theme w = Ok ((None, th), w1) ->
  th = theme /\ file_len w1 = file_len w /\ file_ops w1 = file_ops w.
Proof.
  unfold wl_cursor_create_from_xcursor_images. intros H.
  bind_at H as ok1 w2 Hm1. destruct (malloc_file _ _ _ _ Hm1) as [Hl1 Ho1].
  destruct ok1; cbn [negb] in H; [| ret_inv H; auto].
  bind_at H as ok2 w3 Hm2. destruct (malloc_file _ _ _ _ Hm2) as [Hl2 Ho2].
  destruct ok2; cbn [negb] in H; [| ret_inv H; split; [auto | split; congruence]].
  bind_at H as nm w4 Hnm. bind_at H as r w5 Hloop.
  unfold ret in H. discriminate H.
Qed.

(** One report of the loader, when [load_callback] returns: the cursors
    there stay, in place; at most one cursor is added; the pool stays
    consistent and keeps the bytes it had handed out. *)
Lemma load_callback_step E xi theme w theme' w' :
  theme_inv theme ->
  load_callback E xi theme w = Ok (theme', w') ->
  theme_inv theme'
  /\ pool (theme_pool theme') = pool (theme_pool theme)
  /\ used (theme_pool theme) <= used (theme_pool theme')
  /\ size (theme_pool theme) <= size (theme_pool theme')
  /\ (forall i b, 0 <= i < used (theme_pool theme) ->
        file_at w i = Some b -> file_at w' i = Some b)
  /\ (cursors theme' = cursors theme
      \/ exists c, cursors theme' = cursors theme ++ [Some c]
                   /\ named (xname xi) (cursors theme) = []
                   /\ (name c = Some (xname xi) \/ name c = None)).
Proof.
  intros [Hpool Htiles] H. unfold load_callback in H.
  bind_at H as found w1 Hfound.
  unfold pure, wl_cursor_theme_get_cursor in Hfound.
  destruct (get_cursor_loop (cursors theme) (xname xi)) as [r | why] eqn:Hget;
    [| discriminate].
  injection Hfound; clear Hfound; intros; subst w1 found.
  destruct r as [c0 |].
  - ret_inv H. split; [split; assumption |]. split; [reflexivity |].
    split; [lia |]. split; [lia |]. split; [auto | left; reflexivity].
  - apply get_cursor_loop_none in Hget.
    bind_at H as r w2 Hcreate. destruct r as [[c |] th]; cbn [fst snd] in H.
    + bind_at H as ok w3 Hmalloc.
      destruct ok; cbn [negb] in H; [| discriminate].
      ret_inv H. destruct (malloc_file _ _ _ _ Hmalloc) as [Hl Ho].
      destruct (created_cursor_pool _ _ _ _ _ _ _ Hpool Hcreate)
        as (Hinv' & Hp' & Hsize' & Hused' & Hkeep' & _ & Hpos & _).
      pose proof (created_cursor_tiles _ _ _ _ _ _ _ Hpool Hcreate) as Ht.
      pose proof (tiles_le _ _ _ Ht) as Hle.
      destruct (wl_cursor_create_from_xcursor_images_inv _ _ _ _ _ _ _ Hcreate)
        as (_ & _ & _ & Hname & Hcur).
      unfold set_cursors.
      split.
      { split; [exact Hinv' |]. cbn [theme_pool cursors].
        rewrite Hcur, theme_ranges_app.
        eapply tiles_app; [exact Htiles |].
        cbn [theme_ranges flat_map]. now rewrite app_nil_r. }
      split; [exact Hp' |]. split; [exact Hle |]. split; [exact Hsize' |].
      split.
      { intros i b Hi Hb. rewrite (file_at_same w2 w') by assumption.
        now apply Hkeep'. }
      right. exists c. rewrite Hcur. auto.
    + ret_inv H. destruct (not_created_inv _ _ _ _ _ _ Hcreate)
        as (-> & Hl & Ho).
      split; [split; assumption |]. split; [reflexivity |].
      split; [lia |]. split; [lia |].
      split; [| left; reflexivity].
      intros i b Hi Hb. now rewrite (file_at_same w w') by assumption.
Qed.

(** ** What the loader's reports do to a theme *)

Lemma xcursor_load_theme_steps E found :
  forall theme w theme' w',
    theme_inv theme ->
    xcursor_load_theme E found theme w = Ok (theme', w') ->
    theme_inv theme'
    /\ pool (theme_pool theme') = pool (theme_pool theme)
    /\ used (theme_pool theme) <= used (theme_pool theme')
    /\ size (theme_pool theme) <= size (theme_pool theme')
    /\ (forall i b, 0 <= i < used (theme_pool theme) ->
          file_at w i = Some b -> file_at w' i = Some b).
Proof.
  induction found as [| xi found IH]; intros theme w theme' w' Hinv H.
  - cbn in H. ret_inv H. repeat split; try apply Hinv; auto; lia.
  - cbn [xcursor_load_theme] in H. bind_at H as th w1 Hcb.
    destruct (load_callback_step _ _ _ _ _ _ Hinv Hcb)
      as (Hinv1 & Hp1 & Hu1 & Hs1 & Hk1 & _).
    destruct (IH _ _ _ _ Hinv1 H) as (Hinv2 & Hp2 & Hu2 & Hs2 & Hk2).
    split; [exact Hinv2 |]. split; [congruence |]. split; [lia |].
    split; [lia |].
    intros i b Hi Hb. apply Hk2; [lia |]. now apply Hk1.
Qed.


(** X1: the loader never removes nor moves a cursor: the array at the end
    starts with the array it was given, and every entry it adds is a cursor
    with the frames of one of the reports, under that report's name or, if
    [strdup] failed, without a name. *)
Theorem xcursor_load_theme_appends E found :
  forall theme w theme' w',
    xcursor_load_theme E found theme w = Ok (theme', w') ->
    exists added,
      cursors theme' = cursors theme ++ added
      /\ Forall (fun entry =>
                   exists c xi,
                     entry = Some c /\ In xi found
                     /\ (name c = Some (xname xi) \/ name c = None)
                     /\ map image (images c)
                        = map xcursor_frame (ximages xi))
           added.
Proof.
  induction found as [| xi found IH]; intros theme w theme' w' H.
  - cbn in H. ret_inv H. exists []. rewrite app_nil_r. split; constructor.
  - cbn [xcursor_load_theme] in H. bind_at H as th w1 Hcb.
    destruct (IH _ _ _ _ H) as (added & Hadd & Hall).
    assert (Hall' : Forall (fun entry =>
                              exists c xi0,
                                entry = Some c /\ In xi0 (xi :: found)
                                /\ (name c = Some (xname xi0)
                                    \/ name c = None)
                                /\ map image (images c)
                                   = map xcursor_frame (ximages xi0))
                      added).
    { eapply Forall_impl; [| exact Hall].
      intros e (c & x & He & Hin & Hn & Hi). exists c, x.
      repeat split; auto. now right. }
    apply load_callback_inv in Hcb.
    destruct Hcb as [(_ & -> & _) | [(_ & _ & Hsame)
                                    | (_ & c & th1 & w2 & Hc & Hone)]].
    + exists added. auto.
    + exists added. rewrite Hadd, Hsame. auto.
    + exists (Some c :: added). rewrite Hadd, Hone, <- app_assoc.
      split; [reflexivity |]. constructor; [| exact Hall'].
      apply wl_cursor_create_from_xcursor_images_inv in Hc.
      destruct Hc as (Himg & _ & _ & Hname & _).
      exists c, xi. repeat split; auto. now left.
Qed.

Lemma xcursor_load_theme_appends_witness :
  exists theme' w' added,
    xcursor_load_theme friendly
      [report "a" [10]; report "a" [20]; report "b" [5]]
      (empty_theme 64) (world_of 64) = Ok (theme', w')
    /\ cursors theme' = cursors (empty_theme 64) ++ added
    /\ length added = 2%nat.
Proof.
  eassert (Hr : xcursor_load_theme friendly
                  [report "a" [10]; report "a" [20]; report "b" [5]]
                  (empty_theme 64) (world_of 64) = Ok (_, _))
    by (vm_compute; reflexivity).
  destruct (xcursor_load_theme_appends friendly _ _ _ _ _ Hr)
    as (added & Hadd & _).
  eexists _, _, added. split; [exact Hr |]. split; [exact Hadd |].
  cbn in Hadd. now rewrite <- Hadd.
Defined.

Lemma load_callback_unique E xi theme w theme' w' :
  unique_names (cursors theme) ->
  load_callback E xi theme w = Ok (theme', w') ->
  unique_names (cursors theme').
Proof.
  intros Huniq H. apply load_callback_inv in H.
  destruct H as [(_ & -> & _) | [(_ & _ & Hsame)
                                | (Habs & c & th & w1 & Hc & Hone)]].
  - exact Huniq.
  - unfold unique_names. now rewrite Hsame.
  - intros nm. rewrite Hone, named_app, length_app.
    destruct (string_dec nm (xname xi)) as [-> | Hne].
    + rewrite Habs. unfold named. cbn [filter length].
      destruct (has_name (xname xi) (Some c)); cbn; lia.
    + unfold named at 2. cbn [filter].
      rewrite (has_name_created _ _ _ _ _ _ _ _ Hc Hne). cbn.
      specialize (Huniq nm). lia.
Qed.

(** X2: the loader keeps the names of a theme unique: when no two cursors
    of the theme it is given share a name, no two cursors share a name at
    the end, however often the loader reports a name. *)
Theorem xcursor_load_theme_unique_names E found :
  forall theme w theme' w',
    unique_names (cursors theme) ->
    xcursor_load_theme E found theme w = Ok (theme', w') ->
    unique_names (cursors theme').
Proof.
  induction found as [| xi found IH]; intros theme w theme' w' Huniq H.
  - cbn in H. ret_inv H. exact Huniq.
  - cbn [xcursor_load_theme] in H. bind_at H as th w1 Hcb.
    apply (IH _ _ _ _ (load_callback_unique _ _ _ _ _ _ Huniq Hcb) H).
Qed.

Lemma xcursor_load_theme_unique_names_witness :
  exists theme' w',
    xcursor_load_theme friendly
      [report "a" [10]; report "a" [20]; report "b" [5]]
      (empty_theme 64) (world_of 64) = Ok (theme', w')
    /\ unique_names (cursors theme').
Proof.
  eassert (Hr : xcursor_load_theme friendly
                  [report "a" [10]; report "a" [20]; report "b" [5]]
                  (empty_theme 64) (world_of 64) = Ok (_, _))
    by (vm_compute; reflexivity).
  eexists _, _. split; [exact Hr |].
  refine (xcursor_load_theme_unique_names friendly _ (empty_theme 64)
            (world_of 64) _ _ _ Hr).
  intros nm. cbn. lia.
Defined.

(** ** Looking a cursor up *)

(** X3: [wl_cursor_theme_get_cursor] returns a cursor exactly when that
    cursor has the name asked for and stands in the array after cursors
    that all have other names; the cursor returned is the first of that
    name. *)
Theorem wl_cursor_theme_get_cursor_found theme nm c :
  wl_cursor_theme_get_cursor theme nm = Ok (Some c)
  <-> exists before after,
        cursors theme = before ++ Some c :: after
        /\ name c = Some nm
        /\ Forall (fun entry =>
                     exists c' s, entry = Some c' /\ name c' = Some s
                                  /\ s <> nm) before.
Proof.
  unfold wl_cursor_theme_get_cursor. generalize (cursors theme) as cs.
  intros cs. split.
  - induction cs as [| [c' |] cs IH]; cbn; try discriminate.
    destruct (name c') as [s |] eqn:Hs; [| discriminate].
    destruct (String.eqb_spec nm s) as [-> | Hne].
    + intros H. injection H as ->. exists [], cs. repeat split; auto.
    + intros H. destruct (IH H) as (before & after & -> & Hn & Hall).
      exists (Some c' :: before), after. repeat split; auto.
      constructor; [| exact Hall]. exists c', s. repeat split; auto.
  - intros (before & after & -> & Hn & Hall).
    induction Hall as [| e before (c' & s & -> & Hs & Hne) _ IH]; cbn.
    + rewrite Hn, String.eqb_refl. reflexivity.
    + rewrite Hs. destruct (String.eqb_spec nm s) as [-> | _];
        [contradiction | exact IH].
Qed.

Lemma wl_cursor_theme_get_cursor_found_witness :
  exists c,
    wl_cursor_theme_get_cursor two_cursors "xterm" = Ok (Some c)
    /\ exists before after,
         cursors two_cursors = before ++ Some c :: after
         /\ name c = Some "xterm"%string
         /\ length before = 1%nat.
Proof.
  eexists. split; [vm_compute; reflexivity |].
  lazymatch goal with
  | |- exists before after, _ = before ++ Some ?c :: after /\ _ =>
      destruct (proj1 (wl_cursor_theme_get_cursor_found two_cursors
                         "xterm" c) eq_refl)
        as (before & after & Hsplit & Hname & Hbefore)
  end.
  exists before, after. split; [exact Hsplit |]. split; [exact Hname |].
  destruct before as [| e1 [| e2 before]]; [discriminate | reflexivity |].
  destruct before; discriminate.
Defined.

(** X4: [wl_cursor_theme_get_cursor] returns [NULL] exactly when every
    entry of the array is a cursor with a name other than the one asked
    for; on an empty theme it returns [NULL], and a null entry or a cursor
    without a name met before a match makes it fault. *)
Theorem wl_cursor_theme_get_cursor_absent theme nm :
  (wl_cursor_theme_get_cursor theme nm = Ok None
   <-> Forall (fun entry =>
                 exists c s, entry = Some c /\ name c = Some s /\ s <> nm)
         (cursors theme))
  /\ (cursors theme = [] -> wl_cursor_theme_get_cursor theme nm = Ok None)
  /\ (forall before after,
        cursors theme = before ++ after ->
        Forall (fun entry =>
                  exists c s, entry = Some c /\ name c = Some s /\ s <> nm)
          before ->
        (exists rest, after = None :: rest
                      \/ exists c, after = Some c :: rest /\ name c = None) ->
        wl_cursor_theme_get_cursor theme nm = Fault NullDereference).
Proof.
  unfold wl_cursor_theme_get_cursor.
  split.
  { generalize (cursors theme) as cs. intros cs. split.
    - induction cs as [| [c |] cs IH]; cbn; try discriminate;
        [constructor |].
      destruct (name c) as [s |] eqn:Hs; [| discriminate].
      destruct (String.eqb_spec nm s) as [-> | Hne]; [discriminate |].
      intros H. constructor; [| now apply IH].
      exists c, s. repeat split; auto.
    - induction 1 as [| e cs (c & s & -> & Hs & Hne) _ IH]; cbn;
        [reflexivity |].
      rewrite Hs. destruct (String.eqb_spec nm s) as [-> | _];
        [contradiction | exact IH]. }
  split; [intros ->; reflexivity |].
  intros before after -> Hall (rest & Hbad).
  induction Hall as [| e before (c & s & -> & Hs & Hne) _ IH]; cbn.
  - destruct Hbad as [-> | (c & -> & Hn)]; cbn; [reflexivity |].
    now rewrite Hn.
  - rewrite Hs. destruct (String.eqb_spec nm s) as [-> | _];
      [contradiction | exact IH].
Qed.

Lemma wl_cursor_theme_get_cursor_absent_witness :
  wl_cursor_theme_get_cursor two_cursors "watch" = Ok None
  /\ wl_cursor_theme_get_cursor (empty_theme 64) "watch" = Ok None.
Proof.
  split.
  - apply (proj1 (wl_cursor_theme_get_cursor_absent two_cursors "watch")).
    repeat constructor; eexists _, _;
      (split; [reflexivity |]; split; [reflexivity | discriminate]).
  - apply (proj1 (proj2 (wl_cursor_theme_get_cursor_absent (empty_theme 64)
                           "watch"))).
    reflexivity.
Defined.

(** ** Loading when memory is never short *)

Lemma malloc_result E w ok w1 :
  malloc E w = Ok (ok, w1) -> ok = malloc_ok E (log w).
Proof.
  unfold malloc, bind, ask, emit, ret. intros H.
  injection H; intros; subst. reflexivity.
Qed.

Lemma created_named E xi theme w oc th w1 :
  malloc_never_fails E ->
  wl_cursor_create_from_xcursor_images E xi theme w = Ok ((oc, th), w1) ->
  exists c, oc = Some c /\ name c = Some (xname xi).
Proof.
  intros Hmem H. unfold wl_cursor_create_from_xcursor_images in H.
  bind_at H as ok1 w2 Hm1. apply malloc_result in Hm1.
  rewrite Hmem in Hm1. subst ok1. cbn [negb] in H.
  bind_at H as ok2 w3 Hm2. apply malloc_result in Hm2.
  rewrite Hmem in Hm2. subst ok2. cbn [negb] in H.
  bind_at H as nm w4 Hnm. bind_at H as r w5 Hloop. ret_inv H.
  eexists. split; [reflexivity |]. cbn [name].
  unfold strdup in Hnm. bind_at Hnm as ok w6 Hm3. ret_inv Hnm.
  apply malloc_result in Hm3. rewrite Hmem in Hm3. now subst ok.
Qed.

Lemma load_callback_all_named E xi theme w theme' w' :
  malloc_never_fails E ->
  all_named (cursors theme) ->
  load_callback E xi theme w = Ok (theme', w') ->
  all_named (cursors theme').
Proof.
  intros Hmem Hall H. apply load_callback_inv in H.
  destruct H as [(_ & -> & _) | [(_ & _ & Hsame)
                                | (_ & c & th & w1 & Hc & Hone)]].
  - exact Hall.
  - unfold all_named. now rewrite Hsame.
  - unfold all_named. rewrite Hone. apply Forall_app. split; [exact Hall |].
    constructor; [| constructor].
    destruct (created_named _ _ _ _ _ _ _ Hmem Hc) as (c' & Heq & Hn).
    injection Heq as <-. eauto.
Qed.

Lemma xcursor_load_theme_all_named E found :
  malloc_never_fails E ->
  forall theme w theme' w',
    all_named (cursors theme) ->
    xcursor_load_theme E found theme w = Ok (theme', w') ->
    all_named (cursors theme').
Proof.
  intros Hmem.
  induction found as [| xi found IH]; intros theme w theme' w' Hall H.
  - cbn in H. ret_inv H. exact Hall.
  - cbn [xcursor_load_theme] in H. bind_at H as th w1 Hcb.
    apply (IH _ _ _ _ (load_callback_all_named _ _ _ _ _ _ Hmem Hall Hcb) H).
Qed.

(** In an array of named cursors the lookup returns the first cursor of
    the name. *)
Lemma get_cursor_loop_named cs nm c rest :
  all_named cs -> named nm cs = Some c :: rest ->
  get_cursor_loop cs nm = Ok (Some c).
Proof.
  induction 1 as [| e cs (c' & s & -> & Hs) _ IH]; cbn.
  - discriminate.
  - rewrite Hs. destruct (String.eqb nm s).
    + intros H. now injection H as ->.
    + exact IH.
Qed.

(** The first report of a name splits the list of reports. *)
Lemma first_report_split (found : list XcursorImages) xi :
  In xi found ->
  exists before first after,
    found = before ++ first :: after
    /\ xname first = xname xi
    /\ ~ In (xname xi) (map xname before).
Proof.
  induction found as [| x found IH]; intros Hin; [contradiction |].
  destruct (string_dec (xname x) (xname xi)) as [Heq | Hne].
  - exists [], x, found. repeat split; auto.
  - destruct Hin as [-> | Hin]; [contradiction |].
    destruct (IH Hin) as (before & first & after & -> & Hn & Hnot).
    exists (x :: before), first, after. repeat split; auto.
    cbn. intros [H | H]; auto.
Qed.

(** X5: when [malloc] never fails and the load returns, every name the
    loader reported can be looked up in the theme, and the cursor returned
    has the name and the frames of the first report of that name. *)
Theorem xcursor_load_theme_lookup E found theme0 w0 theme_end w_end xi :
  malloc_never_fails E ->
  cursors theme0 = [] ->
  xcursor_load_theme E found theme0 w0 = Ok (theme_end, w_end) ->
  In xi found ->
  exists c before first after,
    wl_cursor_theme_get_cursor theme_end (xname xi) = Ok (Some c)
    /\ found = before ++ first :: after
    /\ xname first = xname xi
    /\ ~ In (xname xi) (map xname before)
    /\ built_from c first.
Proof.
  intros Hmem Hempty Hrun Hin.
  destruct (first_report_split found xi Hin)
    as (before & first & after & Hfound & Hsame & Hnot).
  subst found. pose proof Hrun as Hsplit.
  rewrite xcursor_load_theme_app in Hsplit.
  bind_at Hsplit as theme1 w1 Hbefore.
  cbn [xcursor_load_theme] in Hsplit. bind_at Hsplit as theme2 w2 Hcb.
  rewrite <- Hsame in Hnot.
  assert (Habs : named (xname first) (cursors theme1) = []).
  { rewrite (xcursor_load_theme_absent E before _ Hnot _ _ _ _ Hbefore).
    now rewrite Hempty. }
  apply load_callback_inv in Hcb.
  destruct Hcb as [(Hne & _) | [(_ & (th & w3 & Hnone) & _)
                               | (_ & c & th & w3 & Hsome & _)]].
  - contradiction.
  - destruct (created_named _ _ _ _ _ _ _ Hmem Hnone) as (c & Heq & _).
    discriminate.
  - destruct (created_named _ _ _ _ _ _ _ Hmem Hsome) as (c' & Heq & Hname).
    injection Heq as <-.
    pose proof (first_report_kept E before first after theme0 w0 theme1 w1
                  c th w3 theme_end w_end Hempty Hnot Hbefore Hsome Hname
                  Hrun) as Hkept.
    assert (Hall : all_named (cursors theme_end)).
    { apply (xcursor_load_theme_all_named E _ Hmem _ _ _ _ ltac:(rewrite Hempty; constructor) Hrun). }
    exists c, before, first, after.
    split.
    { rewrite <- Hsame. unfold wl_cursor_theme_get_cursor.
      eapply get_cursor_loop_named; eassumption. }
    rewrite <- Hsame.
    repeat split; auto.
    + apply wl_cursor_create_from_xcursor_images_inv in Hsome. tauto.
    + apply wl_cursor_create_from_xcursor_images_inv in Hsome. tauto.
Qed.

Lemma xcursor_load_theme_lookup_witness :
  exists theme_end w_end c,
    xcursor_load_theme friendly
      [report "a" [10]; report "b" [5]; report "a" [20]]
      (empty_theme 64) (world_of 64) = Ok (theme_end, w_end)
    /\ wl_cursor_theme_get_cursor theme_end "a" = Ok (Some c)
    /\ exists first, built_from c first.
Proof.
  eassert (Hr : xcursor_load_theme friendly
                  [report "a" [10]; report "b" [5]; report "a" [20]]
                  (empty_theme 64) (world_of 64) = Ok (_, _))
    by (vm_compute; reflexivity).
  destruct (xcursor_load_theme_lookup friendly _ (empty_theme 64)
              (world_of 64) _ _ (report "a" [20])
              (fun _ => eq_refl) eq_refl Hr
              ltac:(right; right; left; reflexivity))
    as (c & before & first & after & Hget & _ & _ & _ & Hbuilt).
  eexists _, _, c. split; [exact Hr |]. split; [exact Hget |].
  exists first. exact Hbuilt.
Defined.

(** ** Image data of a cursor *)








(** ** Creating the pool *)

(** The two ways [shm_pool_create] ends. *)
Lemma shm_pool_create_cases E sz w r w' :
  shm_pool_create E sz w = Ok (r, w') ->
  match r with
  | Some p =>
      0 <= sz /\ used p = 0 /\ size p = wrap32 sz /\ data p = Mapped sz
      /\ 0 <= fd p
      /\ file_len w' = sz /\ file_ops w' = []
      /\ log w' = log w ++ [EvMalloc true; EvCreateFile sz (fd p);
                            EvMmap sz true;
                            EvShmCreatePool (fd p) sz (pool p)]
  | None =>
      exists evs,
        log w' = log w ++ evs
        /\ Forall (fun e => is_create_pool e = false) evs
        /\ forall len d, In (EvCreateFile len d) evs -> 0 <= d ->
             In (EvClose d) evs
  end.
Proof.
  unfold shm_pool_create, malloc, os_create_anonymous_file, mmap, close,
    wl_shm_create_pool, bind, ask, emit, ret. cbn.
  destruct (malloc_ok E (log w)); cbn.
  2:{ intros H. injection H; intros; subst. cbn.
      exists [EvMalloc false]. split; [reflexivity |].
      split; [repeat constructor |].
      intros len d [Heq | []]. discriminate. }
  set (l1 := log w ++ [EvMalloc true]).
  set (d := if (sz <? 0) || (anonymous_file_fd E l1 sz <? 0)
            then -1 else anonymous_file_fd E l1 sz).
  destruct (Z.ltb_spec d 0) as [Hneg | Hd]; cbn.
  - intros H. injection H; intros; subst. cbn.
    exists [EvMalloc true; EvCreateFile sz d].
    split; [unfold l1; now rewrite <- app_assoc |].
    split; [repeat constructor |].
    intros len d' [Heq | [Heq | []]]; [discriminate |].
    injection Heq; intros; subst. lia.
  - assert (Hsz : 0 <= sz).
    { unfold d in Hd. destruct (Z.ltb_spec sz 0); cbn in Hd; lia. }
    destruct (mmap_ok E (l1 ++ [EvCreateFile sz d]) sz); cbn.
    + intros H. injection H; intros; subst. cbn.
      repeat split; auto.
      unfold l1. now repeat rewrite <- app_assoc.
    + intros H. injection H; intros; subst. cbn.
      exists [EvMalloc true; EvCreateFile sz d; EvMmap sz false; EvClose d].
      split; [unfold l1; now repeat rewrite <- app_assoc |].
      split; [repeat constructor |].
      intros len d' [Heq | [Heq | [Heq | [Heq | []]]]]; try discriminate.
      injection Heq; intros; subst. cbn. auto.
Qed.



(** ** The built-in cursors *)

Lemma to_int_same a b : wrap32 a = wrap32 b -> to_int a = to_int b.
Proof. unfold to_int. now intros ->. Qed.

Lemma wrap32_mul4 a b :
  wrap32 (wrap32 a * wrap32 b * 4) = wrap32 (a * b * 4).
Proof.
  unfold wrap32, modulus.
  rewrite (Z.mul_mod (a mod 2 ^ 32 * (b mod 2 ^ 32)) 4) by lia.
  rewrite <- (Z.mul_mod a b) by lia.
  rewrite <- Z.mul_mod by lia. reflexivity.
Qed.

(** What [wl_cursor_create_from_data] leaves when it returns on a
    consistent pool. *)
Lemma created_from_data_pool E metadata theme w oc th w' :
  pool_inv (theme_pool theme) ->
  wl_cursor_create_from_data E metadata theme w = Ok ((oc, th), w') ->
  pool_inv (theme_pool th)
  /\ cursors th = cursors theme
  /\ pool (theme_pool th) = pool (theme_pool theme)
  /\ (forall i b, 0 <= i < used (theme_pool theme) ->
        file_at w i = Some b -> file_at w' i = Some b)
  /\ match oc with
     | None => theme_pool th = theme_pool theme
     | Some c =>
         tiles (used (theme_pool theme)) (cursor_ranges c)
           (used (theme_pool th))
         /\ (name c = Some (mname metadata) \/ name c = None)
         /\ total_delay c = 0
         /\ exists img,
              images c = [img]
              /\ buffer img = NULL
              /\ image img = {| width := wrap32 (mwidth metadata);
                                height := wrap32 (mheight metadata);
                                hotspot_x := wrap32 (mhotspot_x metadata);
                                hotspot_y := wrap32 (mhotspot_y metadata);
                                delay := 0 |}
              /\ holds_bytes w' (offset img) (image_size img)
                   (skipn (Z.to_nat (4 * moffset metadata)) (cursor_data E))
     end.
Proof.
  intros Hinv H. unfold wl_cursor_create_from_data in H.
  bind_at H as ok1 w1 Hm1. destruct (malloc_file _ _ _ _ Hm1) as [Hl1 Ho1].
  destruct ok1; cbn [negb] in H.
  2:{ ret_inv H. split; [exact Hinv |]. do 2 (split; [reflexivity |]).
      split; [| reflexivity]. intros i b _ Hb.
      now rewrite (file_at_same w w') by congruence. }
  bind_at H as ok2 w2 Hm2. destruct (malloc_file _ _ _ _ Hm2) as [Hl2 Ho2].
  destruct ok2; cbn [negb] in H.
  2:{ ret_inv H. split; [exact Hinv |]. do 2 (split; [reflexivity |]).
      split; [| reflexivity]. intros i b _ Hb.
      now rewrite (file_at_same w w') by congruence. }
  bind_at H as nm w3 Hnm.
  assert (Hs : file_len w3 = file_len w2 /\ file_ops w3 = file_ops w2).
  { unfold strdup in Hnm. bind_at Hnm as ok w5 Hm. ret_inv Hnm.
    eapply malloc_file; eassumption. }
  destruct Hs as [Hl3 Ho3]. pose proof (strdup_inv _ _ _ _ _ Hnm) as Hname.
  bind_at H as ok3 w4 Hm3. destruct (malloc_file _ _ _ _ Hm3) as [Hl4 Ho4].
  destruct ok3; cbn [negb] in H.
  2:{ ret_inv H. split; [exact Hinv |]. do 2 (split; [reflexivity |]).
      split; [| reflexivity]. intros i b _ Hb.
      now rewrite (file_at_same w w') by congruence. }
  bind_at H as r w5 Halloc. destruct r as [o p1]. cbn [fst snd] in H.
  bind_at H as u w6 Hcopy. ret_inv H.
  destruct (allocate_copy_inv E _ _ _ _ _ _ _ _ _ Hinv
              (to_int_range _) Halloc Hcopy)
    as (Hsz & -> & Hused1 & Hinv1 & Hpool1 & _ & _ & Hkeep1 & Hhold1).
  cbn [theme_pool set_pool cursors].
  split; [exact Hinv1 |]. split; [reflexivity |]. split; [exact Hpool1 |].
  split.
  { intros i b Hi Hb. apply Hkeep1; [assumption |].
    now rewrite (file_at_same w w4) by congruence. }
  assert (Hsize : image_size
                    {| image := {| width := wrap32 (mwidth metadata);
                                   height := wrap32 (mheight metadata);
                                   hotspot_x := wrap32 (mhotspot_x metadata);
                                   hotspot_y := wrap32 (mhotspot_y metadata);
                                   delay := 0 |};
                       buffer := NULL;
                       offset := used (theme_pool theme) |}
                  = to_int (mwidth metadata * mheight metadata * 4)).
  { unfold image_size. cbn [image width height].
    apply to_int_same, wrap32_mul4. }
  split.
  { unfold cursor_ranges. cbn [images map offset tiles]. rewrite Hsize.
    repeat split; auto. }
  split; [exact Hname |]. split; [reflexivity |].
  eexists. split; [reflexivity |]. split; [reflexivity |].
  split; [reflexivity |]. rewrite Hsize. exact Hhold1.
Qed.

(** The loop of [load_default_theme] adds one entry per entry of the
    table and keeps the bytes handed out before. *)
Lemma default_theme_loop_inv E table :
  forall theme w theme' w' array_ok,
    theme_inv theme ->
    default_theme_loop E table array_ok theme w = Ok (theme', w') ->
    theme_inv theme'
    /\ pool (theme_pool theme') = pool (theme_pool theme)
    /\ theme_name theme' = theme_name theme
    /\ theme_size theme' = theme_size theme
    /\ (forall i b, 0 <= i < used (theme_pool theme) ->
          file_at w i = Some b -> file_at w' i = Some b)
    /\ exists added,
         cursors theme' = cursors theme ++ added
         /\ Forall2 (builtin_entry E w') table added.
Proof.
  induction table as [| metadata table IH];
    intros theme w theme' w' array_ok [Hpool Htiles] H.
  - cbn in H. ret_inv H. split; [split; assumption |].
    do 3 (split; [reflexivity |]). split; [auto |].
    exists []. rewrite app_nil_r. split; constructor.
  - cbn [default_theme_loop] in H. bind_at H as r w1 Hcreate.
    destruct r as [oc th]. cbn [fst snd] in H.
    destruct array_ok; cbn [negb] in H; [| discriminate].
    destruct (created_from_data_pool _ _ _ _ _ _ _ Hpool Hcreate)
      as (Hinv1 & Hcur1 & Hp1 & Hkeep1 & Hoc).
    assert (Hmeta : theme_name th = theme_name theme
                    /\ theme_size th = theme_size theme).
    { clear - Hcreate. unfold wl_cursor_create_from_data in Hcreate.
      bind_at Hcreate as ok1 w2 Hm1.
      destruct ok1; cbn [negb] in Hcreate; [| ret_inv Hcreate; auto].
      bind_at Hcreate as ok2 w3 Hm2.
      destruct ok2; cbn [negb] in Hcreate; [| ret_inv Hcreate; auto].
      bind_at Hcreate as nm w4 Hnm. bind_at Hcreate as ok3 w5 Hm3.
      destruct ok3; cbn [negb] in Hcreate; [| ret_inv Hcreate; auto].
      bind_at Hcreate as r w6 Halloc. bind_at Hcreate as u w7 Hcopy.
      ret_inv Hcreate. auto. }
    destruct Hmeta as [Hn1 Hs1].
    assert (Hused : used (theme_pool theme) <= used (theme_pool th)).
    { destruct oc as [c |]; [| rewrite Hoc; lia].
      destruct Hoc as (Ht & _). apply tiles_le in Ht. exact Ht. }
    apply IH in H.
    2:{ split; [exact Hinv1 |]. unfold set_cursors.
        cbn [theme_pool cursors].
        rewrite Hcur1, theme_ranges_app.
        destruct oc as [c |].
        - eapply tiles_app; [exact Htiles |].
          cbn [theme_ranges flat_map]. rewrite app_nil_r. apply Hoc.
        - cbn [theme_ranges flat_map app]. rewrite app_nil_r, Hoc.
          exact Htiles. }
    destruct H as (Hinv' & Hp' & Hn' & Hs' & Hkeep' & added & Hadd & Hall).
    unfold set_cursors in *.
    cbn [theme_pool cursors theme_name theme_size] in *.
    split; [exact Hinv' |]. split; [congruence |].
    split; [congruence |]. split; [congruence |].
    split.
    { intros i b Hi Hb. apply Hkeep'; [lia |]. now apply Hkeep1. }
    exists (oc :: added). rewrite Hadd, Hcur1, <- app_assoc.
    split; [reflexivity |]. constructor; [| exact Hall].
    destruct oc as [c |]; [| exact I].
    destruct Hoc as (Ht & Hname & Htot & img & Himgs & Hbuf & Himg & Hhold).
    split; [exact Hname |]. split; [exact Htot |].
    exists img. split; [exact Himgs |]. split; [exact Hbuf |].
    split; [exact Himg |].
    unfold cursor_ranges in Ht. rewrite Himgs in Ht. cbn [map tiles] in Ht.
    destruct Ht as (Hoff & Hsz & Hend).
    destruct Hpool as [(Hu0 & _) _].
    intros k Hk. apply Hkeep'; [lia |]. now apply Hhold.
Qed.

(** [load_default_theme] on a pool of which nothing is handed out. *)
Lemma load_default_theme_inv E theme w theme' w' :
  pool_inv (theme_pool theme) ->
  used (theme_pool theme) = 0 ->
  load_default_theme E theme w = Ok (theme', w') ->
  theme_inv theme'
  /\ pool (theme_pool theme') = pool (theme_pool theme)
  /\ (theme_name theme' = Some "default"%string \/ theme_name theme' = None)
  /\ theme_size theme' = theme_size theme
  /\ Forall2 (builtin_entry E w') (cursor_metadata_table E) (cursors theme').
Proof.
  intros Hpool Hused H. unfold load_default_theme in H.
  bind_at H as nm w1 Hnm. bind_at H as array_ok w2 Hm.
  apply default_theme_loop_inv in H.
  2:{ split; [exact Hpool |]. cbn. symmetry. exact Hused. }
  cbn [theme_pool cursors theme_name theme_size app] in H.
  destruct H as (Hinv & Hp & Hn & Hs & _ & added & -> & Hall).
  split; [exact Hinv |]. split; [exact Hp |].
  split; [rewrite Hn; eapply strdup_inv; eassumption |].
  split; [exact Hs |]. exact Hall.
Qed.

(** ** Loading a theme *)

(** The name and the size of a theme are written once. *)
Lemma xcursor_images_loop_header E todo :
  forall theme done tot w r w',
    xcursor_images_loop E todo theme done tot w = Ok (r, w') ->
    theme_name (snd r) = theme_name theme
    /\ theme_size (snd r) = theme_size theme.
Proof.
  induction todo as [| x todo IH]; intros theme done tot w r w' H.
  - cbn in H. ret_inv H. auto.
  - cbn [xcursor_images_loop] in H. bind_at H as ok w1 Hm.
    destruct ok; cbn [negb] in H; [| discriminate].
    bind_at H as a w2 Halloc. bind_at H as u w3 Hcopy.
    apply IH in H. exact H.
Qed.

Lemma load_callback_header E xi theme w theme' w' :
  load_callback E xi theme w = Ok (theme', w') ->
  theme_name theme' = theme_name theme
  /\ theme_size theme' = theme_size theme.
Proof.
  unfold load_callback. intros H. bind_at H as found w1 Hfound.
  destruct found as [c |]; [ret_inv H; auto |].
  bind_at H as r w2 Hcreate.
  assert (Hr : theme_name (snd r) = theme_name theme
               /\ theme_size (snd r) = theme_size theme).
  { clear H. unfold wl_cursor_create_from_xcursor_images in Hcreate.
    bind_at Hcreate as ok1 w3 Hm1.
    destruct ok1; cbn [negb] in Hcreate; [| ret_inv Hcreate; auto].
    bind_at Hcreate as ok2 w4 Hm2.
    destruct ok2; cbn [negb] in Hcreate; [| ret_inv Hcreate; auto].
    bind_at Hcreate as nm w5 Hnm. bind_at Hcreate as q w6 Hloop.
    ret_inv Hcreate. cbn [snd].
    eapply xcursor_images_loop_header; eassumption. }
  destruct (fst r) as [c |]; [| ret_inv H; exact Hr].
  bind_at H as ok w3 Hm. destruct ok; cbn [negb] in H; [| discriminate].
  ret_inv H. exact Hr.
Qed.

Lemma loader_keeps_header E found :
  forall theme w theme' w',
    xcursor_load_theme E found theme w = Ok (theme', w') ->
    theme_name theme' = theme_name theme
    /\ theme_size theme' = theme_size theme.
Proof.
  induction found as [| xi found IH]; intros theme w theme' w' H.
  - cbn in H. ret_inv H. auto.
  - cbn [xcursor_load_theme] in H. bind_at H as th w1 Hcb.
    apply load_callback_header in Hcb. apply IH in H.
    destruct Hcb, H. split; congruence.
Qed.

(** The steps of [wl_cursor_theme_load] when it returns. *)
Lemma wl_cursor_theme_load_cases E nm sz w r w' :
  wl_cursor_theme_load E nm sz w = Ok (r, w') ->
  exists ok w1,
    malloc E w = Ok (ok, w1)
    /\ if ok then
         exists tn w2 op w3,
           strdup E match nm with Some s => s | None => "default"%string end
             w1 = Ok (tn, w2)
           /\ is_int (sz * sz * 4)
           /\ shm_pool_create E (sz * sz * 4) w2 = Ok (op, w3)
           /\ match op with
              | None => r = None /\ w' = w3
              | Some p =>
                  exists theme1 w4,
                    xcursor_load_theme E
                      (xcursor_files E
                         match nm with
                         | Some s => s
                         | None => "default"%string
                         end sz)
                      {| cursors := []; theme_pool := p; theme_name := tn;
                         theme_size := sz |} w3 = Ok (theme1, w4)
                    /\ match cursors theme1 with
                       | [] => exists theme',
                                 load_default_theme E theme1 w4
                                 = Ok (theme', w')
                                 /\ r = Some theme'
                       | _ :: _ => r = Some theme1 /\ w' = w4
                       end
              end
       else r = None /\ w' = w1.
Proof.
  unfold wl_cursor_theme_load. intros H.
  bind_at H as ok w1 Hmalloc. exists ok, w1. split; [exact Hmalloc |].
  destruct ok; cbn [negb] in H; [| ret_inv H; auto].
  bind_at H as tn w2 Hname.
  match type of H with
  | (if negb ?b then _ else _) _ = _ => destruct b eqn:Hrange
  end; cbn [negb] in H; [| discriminate].
  bind_at H as op w3 Hpool. exists tn, w2, op, w3.
  split; [exact Hname |]. split.
  { unfold is_int. apply andb_prop in Hrange. destruct Hrange as [Hr Hhi].
    apply andb_prop in Hr. destruct Hr as [_ Hlo]. lia. }
  split; [exact Hpool |].
  destruct op as [p |]; [| ret_inv H; auto].
  bind_at H as theme1 w4 Hload. exists theme1, w4. split; [exact Hload |].
  unfold cursor_count in H.
  destruct (cursors theme1) as [| c cs] eqn:Hcs; cbn [length] in H.
  - cbn in H. bind_at H as theme' w5 Hdef. ret_inv H.
    exists theme'. auto.
  - destruct (Z.eqb_spec (Z.of_nat (S (length cs))) 0) as [Hz | _]; [lia |].
    ret_inv H. auto.
Qed.

(** The theme at the end of the loader, in a call of
    [wl_cursor_theme_load] that returns a theme. *)
Lemma wl_cursor_theme_load_loaded E nm sz w theme w' :
  wl_cursor_theme_load E nm sz w = Ok (Some theme, w') ->
  exists p tn w3 theme1 w4,
    xcursor_load_theme E
      (xcursor_files E
         match nm with Some s => s | None => "default"%string end sz)
      {| cursors := []; theme_pool := p; theme_name := tn;
         theme_size := sz |} w3 = Ok (theme1, w4)
    /\ theme_inv theme1
    /\ theme_size theme1 = sz
    /\ pool (theme_pool theme1) = pool p
    /\ sz * sz * 4 <= size (theme_pool theme1)
    /\ match cursors theme1 with
       | [] => load_default_theme E theme1 w4 = Ok (theme, w')
       | _ :: _ => theme = theme1 /\ w' = w4
       end.
Proof.
  intros H. apply wl_cursor_theme_load_cases in H.
  destruct H as (ok & w1 & Hm & H).
  destruct ok; [| destruct H; discriminate].
  destruct H as (tn & w2 & op & w3 & Hnm & Hint & Hpool & H).
  destruct op as [p |]; [| destruct H; discriminate].
  destruct H as (theme1 & w4 & Hload & H).
  apply shm_pool_create_cases in Hpool.
  destruct Hpool as (Hsz & Hused & Hsize & Hdata & _).
  unfold is_int, INT_MAX in Hint.
  rewrite wrap32_small in Hsize by (unfold modulus; lia).
  assert (Hinv : theme_inv {| cursors := []; theme_pool := p;
                              theme_name := tn; theme_size := sz |}).
  { unfold theme_inv, pool_inv, pool_ok, INT_MAX.
    cbn [theme_pool cursors theme_ranges flat_map tiles].
    rewrite Hused, Hsize, Hdata. split; [split; [lia | now right] | lia]. }
  destruct (xcursor_load_theme_steps _ _ _ _ _ _ Hinv Hload)
    as (Hinv1 & Hp1 & _ & Hs1 & _).
  destruct (loader_keeps_header _ _ _ _ _ _ Hload) as [_ Hts].
  cbn [theme_pool theme_size] in *.
  exists p, tn, w3, theme1, w4. split; [exact Hload |].
  split; [exact Hinv1 |]. split; [exact Hts |]. split; [exact Hp1 |].
  split; [lia |].
  destruct (cursors theme1) as [| c cs].
  - destruct H as (theme' & Hdef & Heq). injection Heq as <-. exact Hdef.
  - destruct H as [Heq ->]. injection Heq as <-. auto.
Qed.





(** X12: a call of [wl_cursor_theme_load] that returns no theme leaves
    nothing behind at the compositor or in the file table: it created no
    pool, and it closed every file it opened. *)
Theorem wl_cursor_theme_load_nothing_left E nm sz w w' :
  wl_cursor_theme_load E nm sz w = Ok (None, w') ->
  exists evs,
    log w' = log w ++ evs
    /\ Forall (fun e => is_create_pool e = false) evs
    /\ forall len d, In (EvCreateFile len d) evs -> 0 <= d ->
         In (EvClose d) evs.
Proof.
  intros H. apply wl_cursor_theme_load_cases in H.
  destruct H as (ok & w1 & Hm & H).
  assert (Hlog1 : log w1 = log w ++ [EvMalloc ok]).
  { unfold malloc, bind, ask, emit, ret in Hm.
    injection Hm; intros; subst. reflexivity. }
  destruct ok.
  2:{ destruct H as [_ ->]. exists [EvMalloc false].
      split; [exact Hlog1 |]. split; [repeat constructor |].
      intros len d [Heq | []]. discriminate. }
  destruct H as (tn & w2 & op & w3 & Hnm & _ & Hpool & H).
  assert (Hlog2 : exists b, log w2 = log w1 ++ [EvMalloc b]).
  { unfold strdup in Hnm. bind_at Hnm as b w5 Hm2. ret_inv Hnm.
    exists b. unfold malloc, bind, ask, emit, ret in Hm2.
    injection Hm2; intros; subst. reflexivity. }
  destruct Hlog2 as [b Hlog2].
  destruct op as [p |].
  { destruct H as (theme1 & w4 & _ & H).
    destruct (cursors theme1).
    - destruct H as (theme' & _ & Heq). discriminate.
    - destruct H as [Heq _]. discriminate. }
  destruct H as [_ ->]. apply shm_pool_create_cases in Hpool.
  destruct Hpool as (evs & Hlog3 & Hno & Hclosed).
  exists (EvMalloc true :: EvMalloc b :: evs).
  split.
  { rewrite Hlog3, Hlog2, Hlog1, <- !app_assoc. reflexivity. }
  split; [repeat constructor; exact Hno |].
  intros len d [Heq | [Heq | Hin]] Hd; try discriminate.
  right. right. eapply Hclosed; eassumption.
Qed.

Lemma wl_cursor_theme_load_nothing_left_witness :
  exists w' evs,
    wl_cursor_theme_load no_mapping None 2 empty_world = Ok (None, w')
    /\ log w' = log empty_world ++ evs
    /\ In (EvCreateFile 16 3) evs /\ In (EvClose 3) evs.
Proof.
  eassert (Hr : wl_cursor_theme_load no_mapping None 2 empty_world
                = Ok (None, _))
    by (vm_compute; reflexivity).
  destruct (wl_cursor_theme_load_nothing_left _ _ _ _ _ Hr)
    as (evs & Hlog & _ & Hclosed).
  assert (Hin : In (EvCreateFile 16 3) evs).
  { cbn in Hlog. rewrite <- Hlog. cbn. auto. }
  eexists _, evs. split; [exact Hr |]. split; [exact Hlog |].
  split; [exact Hin |]. apply (Hclosed 16 3 Hin). lia.
Defined.

(** ** The pool object of a theme *)

Lemma no_pool_created_refl w : no_pool_created w w.
Proof. exists []. rewrite app_nil_r. split; constructor. Qed.

Lemma no_pool_created_trans w1 w2 w3 :
  no_pool_created w1 w2 -> no_pool_created w2 w3 -> no_pool_created w1 w3.
Proof.
  intros (e1 & H1 & F1) (e2 & H2 & F2). exists (e1 ++ e2).
  rewrite H2, H1, app_assoc. split; [reflexivity |].
  apply Forall_app. auto.
Qed.

Lemma malloc_quiet E w ok w' :
  malloc E w = Ok (ok, w') -> no_pool_created w w'.
Proof.
  unfold malloc, bind, ask, emit, ret. intros H.
  injection H; intros; subst. exists [EvMalloc (malloc_ok E (log w))].
  split; [reflexivity | repeat constructor].
Qed.

Lemma strdup_quiet E s w nm w' :
  strdup E s w = Ok (nm, w') -> no_pool_created w w'.
Proof.
  unfold strdup. intros H. bind_at H as ok w1 Hm. ret_inv H.
  eapply malloc_quiet; eassumption.
Qed.

Lemma memcpy_quiet p off src n w u w' :
  memcpy_to_pool p off src n w = Ok (u, w') -> log w' = log w.
Proof.
  unfold memcpy_to_pool. destruct (data p); [| discriminate].
  match goal with |- (if ?b then _ else _) = _ -> _ => destruct b end;
    [| discriminate].
  intros H. injection H; intros; subst. reflexivity.
Qed.

(** [shm_pool_allocate] keeps the pool object and the descriptor. *)
Lemma allocate_same_object E p sz w r w' :
  shm_pool_allocate E p sz w = Ok (r, w') ->
  pool (snd r) = pool p /\ fd (snd r) = fd p /\ no_pool_created w w'.
Proof.
  unfold shm_pool_allocate.
  destruct (wrap32 (used p + sz) >? size p).
  2:{ intros H. ret_inv H. cbn. auto using no_pool_created_refl. }
  intros H. bind_at H as q w1 Hres.
  assert (Hq : pool (snd q) = pool p /\ fd (snd q) = fd p
               /\ no_pool_created w w1).
  { clear H. remember (to_int (2 * size p + sz)) as n eqn:Hn. clear Hn.
    unfold shm_pool_resize, ftruncate, wl_shm_pool_resize, munmap,
      mmap, bind, ask, emit, ret in Hres. cbn in Hres.
    match type of Hres with
    | context [negb ?b] => destruct b
    end; cbn in Hres; injection Hres; intros; subst; cbn.
    - split; [reflexivity |]. split; [reflexivity |].
      eexists. split; [rewrite <- !app_assoc; reflexivity |].
      repeat constructor.
    - split; [reflexivity |]. split; [reflexivity |].
      eexists. split; [reflexivity |]. repeat constructor. }
  destruct Hq as (Hp & Hf & Hq).
  destruct (fst q =? 0); ret_inv H; cbn; auto.
Qed.

Lemma xcursor_images_loop_same_object E todo :
  forall theme done tot w r w',
    xcursor_images_loop E todo theme done tot w = Ok (r, w') ->
    pool (theme_pool (snd r)) = pool (theme_pool theme)
    /\ fd (theme_pool (snd r)) = fd (theme_pool theme)
    /\ no_pool_created w w'.
Proof.
  induction todo as [| x todo IH]; intros theme done tot w r w' H.
  - cbn in H. ret_inv H. auto using no_pool_created_refl.
  - cbn [xcursor_images_loop] in H. bind_at H as ok w1 Hm.
    destruct ok; cbn [negb] in H; [| discriminate].
    bind_at H as a w2 Halloc. bind_at H as u w3 Hcopy.
    apply IH in H. cbn [theme_pool set_pool] in H.
    destruct H as (Hp & Hf & Hq).
    destruct (allocate_same_object _ _ _ _ _ _ Halloc) as (Hp1 & Hf1 & Hq1).
    apply malloc_quiet in Hm. apply memcpy_quiet in Hcopy.
    split; [congruence |]. split; [congruence |].
    eapply no_pool_created_trans; [exact Hm |].
    eapply no_pool_created_trans; [exact Hq1 |].
    destruct Hq as (evs & Hl & Hall). exists evs. split; [congruence | auto].
Qed.

Lemma load_callback_same_object E xi theme w theme' w' :
  load_callback E xi theme w = Ok (theme', w') ->
  pool (theme_pool theme') = pool (theme_pool theme)
  /\ fd (theme_pool theme') = fd (theme_pool theme)
  /\ no_pool_created w w'.
Proof.
  unfold load_callback. intros H. bind_at H as found w1 Hfound.
  assert (w1 = w) as ->.
  { unfold pure in Hfound.
    destruct (wl_cursor_theme_get_cursor theme (xname xi));
      [injection Hfound; auto | discriminate]. }
  destruct found as [c |]; [ret_inv H; auto using no_pool_created_refl |].
  bind_at H as r w2 Hcreate.
  assert (Hr : pool (theme_pool (snd r)) = pool (theme_pool theme)
               /\ fd (theme_pool (snd r)) = fd (theme_pool theme)
               /\ no_pool_created w w2).
  { clear H. unfold wl_cursor_create_from_xcursor_images in Hcreate.
    bind_at Hcreate as ok1 w3 Hm1. apply malloc_quiet in Hm1.
    destruct ok1; cbn [negb] in Hcreate; [| ret_inv Hcreate; auto].
    bind_at Hcreate as ok2 w4 Hm2. apply malloc_quiet in Hm2.
    destruct ok2; cbn [negb] in Hcreate;
      [| ret_inv Hcreate; eauto using no_pool_created_trans].
    bind_at Hcreate as nm w5 Hnm. apply strdup_quiet in Hnm.
    bind_at Hcreate as q w6 Hloop.
    ret_inv Hcreate. cbn [snd].
    apply xcursor_images_loop_same_object in Hloop.
    destruct Hloop as (Hp & Hf & Hq).
    eauto 6 using no_pool_created_trans. }
  destruct Hr as (Hp & Hf & Hq).
  destruct (fst r) as [c |]; [| ret_inv H; auto].
  bind_at H as ok w3 Hm. apply malloc_quiet in Hm.
  destruct ok; cbn [negb] in H; [| discriminate].
  ret_inv H. cbn [theme_pool set_cursors].
  eauto using no_pool_created_trans.
Qed.

Lemma loader_same_object E found :
  forall theme w theme' w',
    xcursor_load_theme E found theme w = Ok (theme', w') ->
    pool (theme_pool theme') = pool (theme_pool theme)
    /\ fd (theme_pool theme') = fd (theme_pool theme)
    /\ no_pool_created w w'.
Proof.
  induction found as [| xi found IH]; intros theme w theme' w' H.
  - cbn in H. ret_inv H. auto using no_pool_created_refl.
  - cbn [xcursor_load_theme] in H. bind_at H as th w1 Hcb.
    apply load_callback_same_object in Hcb. apply IH in H.
    destruct Hcb as (? & ? & ?), H as (? & ? & ?).
    split; [congruence |]. split; [congruence |].
    eauto using no_pool_created_trans.
Qed.

Lemma created_from_data_same_object E metadata theme w r w' :
  wl_cursor_create_from_data E metadata theme w = Ok (r, w') ->
  pool (theme_pool (snd r)) = pool (theme_pool theme)
  /\ fd (theme_pool (snd r)) = fd (theme_pool theme)
  /\ no_pool_created w w'.
Proof.
  unfold wl_cursor_create_from_data. intros H.
  bind_at H as ok1 w1 Hm1. apply malloc_quiet in Hm1.
  destruct ok1; cbn [negb] in H; [| ret_inv H; auto].
  bind_at H as ok2 w2 Hm2. apply malloc_quiet in Hm2.
  destruct ok2; cbn [negb] in H;
    [| ret_inv H; eauto using no_pool_created_trans].
  bind_at H as nm w3 Hnm. apply strdup_quiet in Hnm.
  bind_at H as ok3 w4 Hm3. apply malloc_quiet in Hm3.
  destruct ok3; cbn [negb] in H;
    [| ret_inv H; eauto 7 using no_pool_created_trans].
  bind_at H as q w5 Halloc. bind_at H as u w6 Hcopy. ret_inv H.
  cbn [snd theme_pool set_pool].
  destruct (allocate_same_object _ _ _ _ _ _ Halloc) as (Hp & Hf & Hq).
  apply memcpy_quiet in Hcopy.
  split; [exact Hp |]. split; [exact Hf |].
  destruct Hq as (evs & Hl & Hall).
  assert (Hq : no_pool_created w4 w').
  { exists evs. split; [congruence | auto]. }
  eauto 7 using no_pool_created_trans.
Qed.

Lemma default_theme_loop_same_object E table :
  forall theme w theme' w' array_ok,
    default_theme_loop E table array_ok theme w = Ok (theme', w') ->
    pool (theme_pool theme') = pool (theme_pool theme)
    /\ fd (theme_pool theme') = fd (theme_pool theme)
    /\ no_pool_created w w'.
Proof.
  induction table as [| metadata table IH];
    intros theme w theme' w' array_ok H.
  - cbn in H. ret_inv H. auto using no_pool_created_refl.
  - cbn [default_theme_loop] in H. bind_at H as r w1 Hcreate.
    destruct array_ok; cbn [negb] in H; [| discriminate].
    apply created_from_data_same_object in Hcreate. apply IH in H.
    cbn [theme_pool set_cursors] in H.
    destruct Hcreate as (? & ? & ?), H as (? & ? & ?).
    split; [congruence |]. split; [congruence |].
    eauto using no_pool_created_trans.
Qed.

Lemma load_default_theme_same_object E theme w theme' w' :
  load_default_theme E theme w = Ok (theme', w') ->
  pool (theme_pool theme') = pool (theme_pool theme)
  /\ fd (theme_pool theme') = fd (theme_pool theme)
  /\ no_pool_created w w'.
Proof.
  unfold load_default_theme. intros H.
  bind_at H as nm w1 Hnm. apply strdup_quiet in Hnm.
  bind_at H as array_ok w2 Hm. apply malloc_quiet in Hm.
  apply default_theme_loop_same_object in H. cbn [theme_pool] in H.
  destruct H as (? & ? & ?).
  eauto 6 using no_pool_created_trans.
Qed.

Lemma no_pool_created_filter w w' :
  no_pool_created w w' ->
  filter is_create_pool (log w') = filter is_create_pool (log w).
Proof.
  intros (evs & -> & Hall). rewrite filter_app.
  replace (filter is_create_pool evs) with (@nil event);
    [apply app_nil_r |].
  induction Hall as [| e evs He _ IH]; [reflexivity |].
  cbn. now rewrite He.
Qed.

(** The pool that a call of [wl_cursor_theme_load] created is the one the
    theme holds, and no other pool was created. *)
Lemma wl_cursor_theme_load_pool_object E nm sz w theme w' :
  wl_cursor_theme_load E nm sz w = Ok (Some theme, w') ->
  exists p w2 w3,
    shm_pool_create E (sz * sz * 4) w2 = Ok (Some p, w3)
    /\ no_pool_created w w2 /\ no_pool_created w3 w'
    /\ pool (theme_pool theme) = pool p
    /\ fd (theme_pool theme) = fd p.
Proof.
  intros H. apply wl_cursor_theme_load_cases in H.
  destruct H as (ok & w1 & Hm & H). apply malloc_quiet in Hm.
  destruct ok; [| destruct H; discriminate].
  destruct H as (tn & w2 & op & w3 & Hnm & Hint & Hpool & H).
  apply strdup_quiet in Hnm.
  destruct op as [p |]; [| destruct H; discriminate].
  destruct H as (theme1 & w4 & Hload & H).
  exists p, w2, w3. split; [exact Hpool |].
  split; [eauto using no_pool_created_trans |].
  apply loader_same_object in Hload. cbn [theme_pool] in Hload.
  destruct Hload as (Hp1 & Hf1 & Hq1).
  destruct (cursors theme1).
  - destruct H as (theme' & Hdef & Heq). injection Heq as <-.
    apply load_default_theme_same_object in Hdef.
    destruct Hdef as (? & ? & ?).
    split; [eauto using no_pool_created_trans |].
    split; congruence.
  - destruct H as [Heq ->]. injection Heq as <-. auto.
Qed.

(** X13: a call of [wl_cursor_theme_load] that returns a theme created
    exactly one pool at the compositor, of [size * size * 4] bytes, and the
    theme holds the handle of that pool and the descriptor of its file,
    however often the pool grew since. *)
Theorem wl_cursor_theme_load_one_pool E nm sz w theme w' :
  wl_cursor_theme_load E nm sz w = Ok (Some theme, w') ->
  filter is_create_pool (log w')
  = filter is_create_pool (log w)
    ++ [EvShmCreatePool (fd (theme_pool theme)) (sz * sz * 4)
          (pool (theme_pool theme))].
Proof.
  intros H. apply wl_cursor_theme_load_pool_object in H.
  destruct H as (p & w2 & w3 & Hpool & Hq2 & Hq3 & -> & ->).
  apply shm_pool_create_cases in Hpool.
  destruct Hpool as (_ & _ & _ & _ & _ & _ & _ & Hlog).
  apply (f_equal (filter is_create_pool)) in Hlog.
  rewrite filter_app in Hlog. cbn [filter is_create_pool] in Hlog.
  rewrite (no_pool_created_filter _ _ Hq3), Hlog.
  now rewrite (no_pool_created_filter _ _ Hq2).
Qed.

Lemma wl_cursor_theme_load_one_pool_witness :
  exists theme w',
    wl_cursor_theme_load
      (with_files friendly [report "a" [10; 20]; report "b" [5]])
      (Some "t"%string) 1 empty_world = Ok (Some theme, w')
    /\ resize_requests (log w') = 1%nat
    /\ filter is_create_pool (log w')
       = [EvShmCreatePool (fd (theme_pool theme)) 4
            (pool (theme_pool theme))].
Proof.
  eassert (Hr : wl_cursor_theme_load
                  (with_files friendly [report "a" [10; 20]; report "b" [5]])
                  (Some "t"%string) 1 empty_world = Ok (Some _, _))
    by (vm_compute; reflexivity).
  eexists _, _. split; [exact Hr |]. split; [vm_compute; reflexivity |].
  exact (wl_cursor_theme_load_one_pool _ _ _ _ _ _ Hr).
Defined.

(** ** Growth without a mapping *)

(** X14: [shm_pool_resize] does not look at what [mmap] returns.  When an
    allocation grows a mapped, consistent pool and the new mapping fails,
    [shm_pool_allocate] still reports success: it returns the old [used] as
    the offset, after the file was extended, the compositor told and the old
    mapping removed; the pool is left without a mapping, and a copy into it
    at the offset returned is a fault whatever its source and length. *)
Theorem shm_pool_allocate_unchecked_mmap E p sz w o p' w' :
  pool_ok p ->
  data p = Mapped (size p) ->
  shm_pool_allocate E p sz w = Ok ((o, p'), w') ->
  data p' = MAP_FAILED ->
  o = used p /\ 0 <= o
  /\ used p' = wrap32 (used p + sz)
  /\ log w' = log w ++ [EvFtruncate (to_int (2 * size p + sz)) true;
                        EvShmPoolResize (pool p)
                          (to_int (2 * size p + sz));
                        EvMunmap (size p);
                        EvMmap (to_int (2 * size p + sz)) false]
  /\ forall src n, memcpy_to_pool p' o src n w' = Fault OutOfBounds.
Proof.
  intros [Hused Hsize] Hdata H Hfailed. unfold shm_pool_allocate in H.
  assert (Hint : to_int (used p) = used p).
  { apply to_int_small. unfold INT_MAX in *. lia. }
  destruct (wrap32 (used p + sz) >? size p).
  2:{ ret_inv H. cbn in Hfailed. congruence. }
  bind_at H as q w1 Hres. remember (to_int (2 * size p + sz)) as n eqn:Hn.
  clear Hn. unfold shm_pool_resize, ftruncate, wl_shm_pool_resize, munmap,
    mmap, bind, ask, emit, ret in Hres. cbn in Hres.
  match type of Hres with
  | context [negb ?b] => destruct b
  end; cbn in Hres; injection Hres; intros; subst; cbn in H.
  2:{ ret_inv H. congruence. }
  ret_inv H. cbn [data] in Hfailed. cbn [used log].
  rewrite Hint. split; [reflexivity |]. split; [lia |].
  split; [reflexivity |].
  match type of Hfailed with
  | (if ?b then _ else _) = _ => destruct b eqn:Hmap
  end; [discriminate |].
  split; [now rewrite <- !app_assoc |].
  intros src k. unfold memcpy_to_pool. cbn [data]. reflexivity.
Qed.

Lemma shm_pool_allocate_unchecked_mmap_witness :
  exists o p' w',
    shm_pool_allocate no_mapping (pool_of 4 4) 16 (world_of 4)
    = Ok ((o, p'), w')
    /\ o = 4 /\ data p' = MAP_FAILED
    /\ memcpy_to_pool p' o [x01; x02; x03; x04] 4 w' = Fault OutOfBounds.
Proof.
  eassert (Hr : shm_pool_allocate no_mapping (pool_of 4 4) 16 (world_of 4)
                = Ok ((_, _), _))
    by (vm_compute; reflexivity).
  destruct (shm_pool_allocate_unchecked_mmap no_mapping (pool_of 4 4) 16
              (world_of 4) _ _ _
              ltac:(unfold pool_ok, INT_MAX; cbn; lia) eq_refl Hr eq_refl)
    as (Ho & _ & _ & _ & Hcopy).
  eexists _, _, _. split; [exact Hr |]. split; [exact Ho |].
  split; [reflexivity |]. apply Hcopy.
Defined.

(** ** Which frame is shown *)

Lemma sum_delays_cons img imgs :
  sum_delays (img :: imgs) = frame_delay img + sum_delays imgs.
Proof. reflexivity. Qed.

(** Where the loop of [wl_cursor_frame] stops. *)
Lemma frame_loop_window imgs :
  Forall (fun img => is_uint (frame_delay img)) imgs ->
  forall i t j,
    is_uint t -> frame_loop imgs i t = Ok j ->
    exists k img,
      j = i + Z.of_nat k
      /\ nth_error imgs k = Some img
      /\ Forall (fun img => 0 < frame_delay img) (firstn k imgs)
      /\ sum_delays (firstn k imgs) <= t
      /\ (frame_delay img = 0
          \/ t < sum_delays (firstn k imgs) + frame_delay img).
Proof.
  induction 1 as [| img imgs Himg _ IH]; intros i t j Ht H.
  - discriminate.
  - cbn [frame_loop] in H. rewrite frame_test in H by assumption.
    unfold is_uint in *.
    destruct (Z.ltb_spec 0 (frame_delay img)) as [Hpos | Hzero];
      destruct (Z.leb_spec (frame_delay img) t) as [Hle | Hgt];
      cbn [andb] in H;
      try (injection H as <-; exists 0%nat, img; cbn [firstn nth_error];
           split; [lia |]; split; [reflexivity |]; split; [constructor |];
           split; [unfold sum_delays; cbn; lia |];
           unfold sum_delays; cbn; lia).
    rewrite wrap32_small in H by lia.
    apply IH in H; [| lia].
    destruct H as (k & img' & -> & Hnth & Hall & Hsum & Hstop).
    exists (S k), img'. cbn [firstn nth_error]. rewrite sum_delays_cons.
    split; [lia |]. split; [exact Hnth |]. split; [now constructor |].
    split; [lia |]. destruct Hstop; [now left | right; lia].
Qed.

(** X15: which frame [wl_cursor_frame] returns for a cursor of several
    frames whose delays are [uint32_t] values and whose [total_delay] is
    their sum.  With [t] the time modulo [total_delay], the frame returned
    is the first one that has delay 0 or whose window contains [t]: every
    frame before it has a positive delay, their delays sum to at most [t],
    and the frame itself has delay 0 or ends after [t]. *)
Theorem wl_cursor_frame_window c time i :
  cursor_wf c ->
  image_count c <> 1 ->
  wl_cursor_frame c time = Ok i ->
  exists k img,
    i = Z.of_nat k
    /\ nth_error (images c) k = Some img
    /\ Forall (fun img => 0 < frame_delay img) (firstn k (images c))
    /\ sum_delays (firstn k (images c)) <= time mod total_delay c
    /\ (frame_delay img = 0
        \/ time mod total_delay c
           < sum_delays (firstn k (images c)) + frame_delay img).
Proof.
  intros [Huint Htotal] Hcount H. unfold wl_cursor_frame in H.
  destruct (Z.eqb_spec (image_count c) 1); [contradiction |].
  destruct (Z.eqb_spec (total_delay c) 0); [discriminate |].
  pose proof (wrap32_range (sum_delays (images c))) as Hr.
  rewrite <- Htotal in Hr.
  pose proof (Z.mod_pos_bound time (total_delay c) ltac:(lia)) as Ht.
  apply frame_loop_window in H; [| exact Huint | unfold is_uint; lia].
  destruct H as (k & img & -> & H). exists k, img.
  split; [lia | exact H].
Qed.

Lemma wl_cursor_frame_window_witness :
  exists k img,
    wl_cursor_frame three_frames 700 = Ok (Z.of_nat k)
    /\ nth_error (images three_frames) k = Some img
    /\ sum_delays (firstn k (images three_frames))
       <= 700 mod total_delay three_frames
    /\ (frame_delay img = 0
        \/ 700 mod total_delay three_frames
           < sum_delays (firstn k (images three_frames)) + frame_delay img).
Proof.
  destruct (wl_cursor_frame_window three_frames 700 1
              ltac:(split; [repeat constructor; discriminate | reflexivity])
              ltac:(discriminate) eq_refl)
    as (k & img & Hk & Hnth & _ & Hsum & Hstop).
  exists k, img. split; [now rewrite <- Hk |]. auto.
Defined.

(** X16: [wl_cursor_frame] is periodic: moving the time by whole multiples of
    [total_delay] changes neither the frame nor the fault.  Both times are
    [uint32_t] values, as the parameter is. *)
Theorem wl_cursor_frame_periodic c time n :
  is_uint time ->
  is_uint (time + n * total_delay c) ->
  wl_cursor_frame c (time + n * total_delay c) = wl_cursor_frame c time.
Proof.
  intros _ _. unfold wl_cursor_frame.
  destruct (image_count c =? 1); [reflexivity |].
  destruct (Z.eqb_spec (total_delay c) 0); [reflexivity |].
  now rewrite Z.mod_add.
Qed.

Lemma wl_cursor_frame_periodic_witness :
  wl_cursor_frame three_frames (150 + 2 * total_delay three_frames)
  = wl_cursor_frame three_frames 150.
Proof.
  apply (wl_cursor_frame_periodic three_frames 150 2);
    unfold is_uint, modulus; cbn; lia.
Defined.

(** X17: a cursor that [wl_cursor_create_from_xcursor_images] builds from a
    report of no image or of several images whose delays sum to 0 in
    [uint32_t] (all of them 0, say) makes [wl_cursor_frame] divide by
    zero, at every time. *)
Theorem wl_cursor_frame_division_by_zero E xi theme w c theme' w' time :
  wl_cursor_create_from_xcursor_images E xi theme w
    = Ok ((Some c, theme'), w') ->
  length (ximages xi) <> 1%nat ->
  wrap32 (sum_xdelays (ximages xi)) = 0 ->
  wl_cursor_frame c time = Fault DivisionByZero.
Proof.
  intros H Hcount Hsum.
  apply wl_cursor_create_from_xcursor_images_inv in H.
  destruct H as (Himg & _ & Htot & _).
  apply (f_equal (@length _)) in Himg. rewrite !length_map in Himg.
  unfold wl_cursor_frame, image_count. rewrite Htot, Hsum, Himg.
  destruct (Z.eqb_spec (Z.of_nat (length (ximages xi))) 1); [lia |].
  reflexivity.
Qed.

Lemma wl_cursor_frame_division_by_zero_witness :
  exists c theme' w',
    wl_cursor_create_from_xcursor_images friendly
      (report "still" [0; 0]) (empty_theme 64) (world_of 64)
    = Ok ((Some c, theme'), w')
    /\ wl_cursor_frame c 50 = Fault DivisionByZero.
Proof.
  eassert (Hr : wl_cursor_create_from_xcursor_images friendly
                  (report "still" [0; 0]) (empty_theme 64) (world_of 64)
                = Ok ((Some _, _), _))
    by (vm_compute; reflexivity).
  eexists _, _, _. split; [exact Hr |].
  exact (wl_cursor_frame_division_by_zero friendly _ _ _ _ _ _ 50 Hr
           ltac:(discriminate) eq_refl).
Defined.

(** ** Tearing down *)

Lemma buffers_destroyed_app a b :
  buffers_destroyed (a ++ b) = buffers_destroyed a ++ buffers_destroyed b.
Proof. apply flat_map_app. Qed.

Lemma pools_destroyed_app a b :
  pools_destroyed (a ++ b) = pools_destroyed a ++ pools_destroyed b.
Proof. apply flat_map_app. Qed.

Lemma descriptors_closed_app a b :
  descriptors_closed (a ++ b)
  = descriptors_closed a ++ descriptors_closed b.
Proof. apply flat_map_app. Qed.

Lemma images_freed_app a b :
  images_freed (a ++ b) = (images_freed a + images_freed b)%nat.
Proof. unfold images_freed. now rewrite filter_app, length_app. Qed.

(** What the destruction of the images of one cursor does. *)
Lemma images_destroyed imgs :
  buffers_destroyed (flat_map wl_cursor_image_destroy imgs)
  = filter (fun b => negb (b =? NULL)) (map buffer imgs)
  /\ pools_destroyed (flat_map wl_cursor_image_destroy imgs) = []
  /\ descriptors_closed (flat_map wl_cursor_image_destroy imgs) = []
  /\ images_freed (flat_map wl_cursor_image_destroy imgs) = length imgs.
Proof.
  induction imgs as [| img imgs (IHb & IHp & IHd & IHf)];
    [repeat split |].
  cbn [flat_map map filter length].
  rewrite buffers_destroyed_app, pools_destroyed_app,
    descriptors_closed_app, images_freed_app, IHb, IHp, IHd, IHf.
  unfold wl_cursor_image_destroy.
  destruct (buffer img =? NULL); cbn; auto.
Qed.

Lemma cursor_destroyed c done :
  wl_cursor_destroy (Some c) = Ok done ->
  buffers_destroyed done = cursor_buffers c
  /\ pools_destroyed done = []
  /\ descriptors_closed done = []
  /\ images_freed done = length (images c).
Proof.
  cbn. intros H. injection H as <-.
  destruct (images_destroyed (images c)) as (Hb & Hp & Hd & Hf).
  rewrite buffers_destroyed_app, pools_destroyed_app,
    descriptors_closed_app, images_freed_app, Hb, Hp, Hd, Hf.
  unfold cursor_buffers.
  destruct (name c); cbn; rewrite ?app_nil_r; auto.
Qed.

Lemma destroy_loop_done entries :
  forall done,
    destroy_loop entries = Ok done ->
    buffers_destroyed done = theme_buffers entries
    /\ pools_destroyed done = []
    /\ descriptors_closed done = []
    /\ images_freed done = length (theme_images entries).
Proof.
  induction entries as [| entry entries IH]; intros done H.
  - cbn in H. injection H as <-. repeat split.
  - cbn [destroy_loop] in H.
    destruct entry as [c |]; [| discriminate].
    destruct (wl_cursor_destroy (Some c)) as [d1 | why] eqn:H1;
      [| discriminate].
    destruct (destroy_loop entries) as [d2 | why] eqn:H2; [| discriminate].
    injection H as <-.
    destruct (cursor_destroyed _ _ H1) as (Hb1 & Hp1 & Hd1 & Hf1).
    destruct (IH _ eq_refl) as (Hb2 & Hp2 & Hd2 & Hf2).
    rewrite buffers_destroyed_app, pools_destroyed_app,
      descriptors_closed_app, images_freed_app,
      Hb1, Hp1, Hd1, Hf1, Hb2, Hp2, Hd2, Hf2.
    cbn [theme_buffers theme_images flat_map]. rewrite length_app. auto.
Qed.

Lemma destroy_loop_faults entries :
  (In None entries -> destroy_loop entries = Fault NullDereference)
  /\ (~ In None entries -> exists done, destroy_loop entries = Ok done).
Proof.
  induction entries as [| entry entries [IHf IHo]].
  - split; [intros [] | intros _; now exists []].
  - cbn [destroy_loop]. destruct entry as [c |]; cbn [wl_cursor_destroy].
    + split.
      * intros [Heq | Hin]; [discriminate |]. now rewrite IHf.
      * intros Hnot. destruct IHo as [done Hdone].
        { intros Hin. apply Hnot. now right. }
        rewrite Hdone. eauto.
    + split; [reflexivity |]. intros Hnot. exfalso. apply Hnot. now left.
Qed.

(** X18: [wl_cursor_theme_destroy] on a cursor array that has a [NULL] entry
    reads through the null pointer, and on an array without one it runs to
    its end. *)
Theorem wl_cursor_theme_destroy_null_entry theme :
  (In None (cursors theme) ->
     wl_cursor_theme_destroy theme = Fault NullDereference)
  /\ (~ In None (cursors theme) ->
        exists done, wl_cursor_theme_destroy theme = Ok done).
Proof.
  unfold wl_cursor_theme_destroy.
  destruct (destroy_loop_faults (cursors theme)) as [Hf Ho]. split.
  - intros Hin. now rewrite Hf.
  - intros Hnot. destruct (Ho Hnot) as [done ->]. eauto.
Qed.

Lemma wl_cursor_theme_destroy_null_entry_witness :
  exists theme w',
    wl_cursor_theme_load
      (with_malloc two_builtin (malloc_fails_at 5)) None 2 empty_world
    = Ok (Some theme, w')
    /\ In None (cursors theme)
    /\ wl_cursor_theme_destroy theme = Fault NullDereference.
Proof.
  eassert (Hr : wl_cursor_theme_load
                  (with_malloc two_builtin (malloc_fails_at 5)) None 2
                  empty_world = Ok (Some _, _))
    by (vm_compute; reflexivity).
  eexists _, _. split; [exact Hr |].
  lazymatch goal with
  | |- In None (cursors ?theme) /\ _ =>
      assert (Hin : In None (cursors theme)) by (cbn; auto);
      split; [exact Hin |];
      exact (proj1 (wl_cursor_theme_destroy_null_entry theme) Hin)
  end.
Defined.

(** X19: what [wl_cursor_theme_destroy] releases when it runs to its end.
    Every image is freed; the buffers destroyed are the buffers the images
    hold, each once and in array order; all of that is done before the
    mapping is removed, the pool destroyed at the compositor and the file
    closed, each once and in this order. *)
Theorem wl_cursor_theme_destroy_releases theme done :
  wl_cursor_theme_destroy theme = Ok done ->
  exists first,
    done = first
           ++ [RelMunmap (data (theme_pool theme)) (size (theme_pool theme));
               RelPoolDestroy (pool (theme_pool theme));
               RelClose (fd (theme_pool theme));
               RelFree BlockPool; RelFree BlockCursors; RelFree BlockTheme]
    /\ buffers_destroyed first = theme_buffers (cursors theme)
    /\ images_freed first = length (theme_images (cursors theme))
    /\ pools_destroyed first = []
    /\ descriptors_closed first = [].
Proof.
  unfold wl_cursor_theme_destroy. intros H.
  destruct (destroy_loop (cursors theme)) as [first | why] eqn:Hloop;
    [| discriminate].
  injection H as <-. exists first. split; [reflexivity |].
  destruct (destroy_loop_done _ _ Hloop) as (Hb & Hp & Hd & Hf). auto.
Qed.

Lemma wl_cursor_theme_destroy_releases_witness :
  exists done first,
    wl_cursor_theme_destroy two_cursors = Ok done
    /\ done = first
              ++ [RelMunmap (Mapped 64) 64; RelPoolDestroy 1; RelClose 3;
                  RelFree BlockPool; RelFree BlockCursors;
                  RelFree BlockTheme]
    /\ buffers_destroyed first = [7]
    /\ images_freed first = 2%nat.
Proof.
  eassert (Hr : wl_cursor_theme_destroy two_cursors = Ok _)
    by (vm_compute; reflexivity).
  destruct (wl_cursor_theme_destroy_releases _ _ Hr)
    as (first & Hdone & Hbuf & Hfreed & _).
  eexists _, first. split; [exact Hr |]. split; [exact Hdone |].
  split; [exact Hbuf | exact Hfreed].
Defined.

(** No image of the array holds a buffer. *)
Lemma no_buffers_none entries :
  Forall (fun img => buffer img = NULL) (theme_images entries) ->
  theme_buffers entries = [].
Proof.
  induction entries as [| entry entries IH]; [reflexivity |].
  cbn [theme_images theme_buffers flat_map]. intros H.
  apply Forall_app in H. destruct H as [Hc Hrest].
  fold (theme_images entries) in Hrest. fold (theme_buffers entries).
  rewrite (IH Hrest), app_nil_r.
  destruct entry as [c |]; [| reflexivity].
  unfold cursor_buffers. clear - Hc.
  induction Hc as [| img imgs Himg _ IHc]; [reflexivity |].
  cbn. rewrite Himg. exact IHc.
Qed.

Lemma theme_images_app l1 l2 :
  theme_images (l1 ++ l2) = theme_images l1 ++ theme_images l2.
Proof. apply flat_map_app. Qed.

Lemma loader_no_buffers E found :
  forall theme w theme' w',
    xcursor_load_theme E found theme w = Ok (theme', w') ->
    Forall (fun img => buffer img = NULL) (theme_images (cursors theme)) ->
    Forall (fun img => buffer img = NULL) (theme_images (cursors theme'))
    /\ (~ In None (cursors theme) -> ~ In None (cursors theme')).
Proof.
  induction found as [| xi found IH]; intros theme w theme' w' H Hall.
  - cbn in H. ret_inv H. auto.
  - cbn [xcursor_load_theme] in H. bind_at H as th w1 Hcb.
    apply load_callback_inv in Hcb.
    assert (Hth : Forall (fun img => buffer img = NULL)
                    (theme_images (cursors th))
                  /\ (~ In None (cursors theme) -> ~ In None (cursors th))).
    { destruct Hcb as [(_ & -> & _) | [(_ & _ & ->) | (_ & c & t & w2 & Hc & ->)]];
        [auto | auto |].
      apply wl_cursor_create_from_xcursor_images_inv in Hc.
      destruct Hc as (_ & Hnull & _). split.
      - rewrite theme_images_app. apply Forall_app. split; [exact Hall |].
        cbn. rewrite app_nil_r. exact Hnull.
      - intros Hnot Hin. apply in_app_or in Hin.
        destruct Hin as [Hin | [Heq | []]]; [auto | discriminate]. }
    destruct Hth as [Hall1 Hnone1].
    destruct (IH _ _ _ _ H Hall1) as [Hall2 Hnone2]. auto.
Qed.

Lemma builtin_no_buffers E w table :
  forall entries,
    Forall2 (builtin_entry E w) table entries ->
    Forall (fun img => buffer img = NULL) (theme_images entries).
Proof.
  induction 1 as [| metadata entry table entries Hentry _ IH];
    [constructor |].
  cbn [theme_images flat_map]. apply Forall_app. split; [| exact IH].
  destruct entry as [c |]; [| constructor].
  destruct Hentry as (_ & _ & img & -> & Hbuf & _). now constructor.
Qed.

(** ** From loading to tearing down *)

(** No image of a theme that [wl_cursor_theme_load] returns holds a buffer,
    and after the loader found a cursor no entry is [NULL]. *)
Lemma wl_cursor_theme_load_no_buffers E nm sz w theme w' :
  wl_cursor_theme_load E nm sz w = Ok (Some theme, w') ->
  Forall (fun img => buffer img = NULL) (theme_images (cursors theme)).
Proof.
  intros H. apply wl_cursor_theme_load_loaded in H.
  destruct H as (p & tn & w3 & theme1 & w4 & Hload & Hinv1 & _ & _ & _ & H).
  apply loader_no_buffers in Hload; [| constructor].
  destruct Hload as [Hall _].
  destruct (cursors theme1) as [| c cs] eqn:Hcs.
  - destruct Hinv1 as [Hpool Htiles]. rewrite Hcs in Htiles. cbn in Htiles.
    destruct (load_default_theme_inv _ _ _ _ _ Hpool (eq_sym Htiles) H)
      as (_ & _ & _ & _ & Hbuiltin).
    eapply builtin_no_buffers; eassumption.
  - destruct H as [-> _]. rewrite Hcs. exact Hall.
Qed.

(** X20: loading a theme and destroying it.  When the cursor array of the
    theme that [wl_cursor_theme_load] returned has no [NULL] entry,
    [wl_cursor_theme_destroy] runs to its end, destroys the one pool the
    load created at the compositor, closes the file the load opened, both
    once, and destroys no buffer, none having been created. *)
Theorem wl_cursor_theme_load_destroy E nm sz w theme w' :
  wl_cursor_theme_load E nm sz w = Ok (Some theme, w') ->
  ~ In None (cursors theme) ->
  exists done d h,
    wl_cursor_theme_destroy theme = Ok done
    /\ filter is_create_pool (log w')
       = filter is_create_pool (log w)
         ++ [EvShmCreatePool d (sz * sz * 4) h]
    /\ In (EvCreateFile (sz * sz * 4) d) (log w')
    /\ pools_destroyed done = [h]
    /\ descriptors_closed done = [d]
    /\ buffers_destroyed done = [].
Proof.
  intros H Hnot.
  pose proof (wl_cursor_theme_load_no_buffers _ _ _ _ _ _ H) as Hnull.
  apply wl_cursor_theme_load_pool_object in H.
  destruct H as (p & w2 & w3 & Hpool & Hq2 & Hq3 & Hp & Hf).
  apply shm_pool_create_cases in Hpool.
  destruct Hpool as (_ & _ & _ & _ & _ & _ & _ & Hlog).
  destruct (destroy_loop_faults (cursors theme)) as [_ Hruns].
  destruct (Hruns Hnot) as [first Hfirst].
  destruct (destroy_loop_done _ _ Hfirst) as (Hb & Hpd & Hd & _).
  eexists _, (fd p), (pool p).
  split; [unfold wl_cursor_theme_destroy; rewrite Hfirst; reflexivity |].
  split.
  { rewrite (no_pool_created_filter _ _ Hq3), Hlog, filter_app.
    cbn [filter is_create_pool].
    now rewrite (no_pool_created_filter _ _ Hq2). }
  split.
  { destruct Hq3 as (evs & -> & _). rewrite Hlog.
    apply in_or_app. left. apply in_or_app. right. cbn. auto. }
  rewrite pools_destroyed_app, descriptors_closed_app,
    buffers_destroyed_app, Hb, Hpd, Hd, (no_buffers_none _ Hnull).
  cbn. rewrite Hp, Hf. auto.
Qed.

Lemma wl_cursor_theme_load_destroy_witness :
  exists theme w' done d h,
    wl_cursor_theme_load
      (with_files friendly [report "a" [10; 20]; report "b" [5]])
      (Some "t"%string) 1 empty_world = Ok (Some theme, w')
    /\ wl_cursor_theme_destroy theme = Ok done
    /\ In (EvCreateFile 4 d) (log w')
    /\ pools_destroyed done = [h]
    /\ descriptors_closed done = [d]
    /\ buffers_destroyed done = [].
Proof.
  eassert (Hr : wl_cursor_theme_load
                  (with_files friendly [report "a" [10; 20]; report "b" [5]])
                  (Some "t"%string) 1 empty_world = Ok (Some _, _))
    by (vm_compute; reflexivity).
  destruct (wl_cursor_theme_load_destroy _ _ _ _ _ _ Hr
              ltac:(cbn; intros [Heq | [Heq | []]]; discriminate Heq))
    as (done & d & h & Hdone & _ & Hfile & Hpools & Hfds & Hbufs).
  eexists _, _, done, d, h. split; [exact Hr |]. auto 6.
Defined.

(** ** Buffers of a loaded theme *)

Lemma image_range_listed entries c img :
  In (Some c) entries -> In img (images c) ->
  In (offset img, image_size img) (theme_ranges entries).
Proof.
  intros Hc Himg. unfold theme_ranges. apply in_flat_map.
  exists (Some c). split; [exact Hc |].
  unfold cursor_ranges.
  apply (in_map (fun img => (offset img, image_size img))). exact Himg.
Qed.

(** X21: the buffer of an image of a loaded theme lies in the pool.  For an
    image, of a cursor of a theme that [wl_cursor_theme_load] returned,
    whose [width * height * 4] is an [int], [wl_cursor_image_get_buffer]
    sends one request, for a buffer of the theme's pool with the width and
    the height of the image and a stride of four bytes a pixel, and the
    [stride * height] bytes from the offset on lie within the part of the
    pool that is handed out. *)
Theorem wl_cursor_image_get_buffer_in_pool
    E nm sz w theme w' c img w1 b img' w2 :
  wl_cursor_theme_load E nm sz w = Ok (Some theme, w') ->
  In (Some c) (cursors theme) ->
  In img (images c) ->
  0 < width (image img) ->
  0 < height (image img) ->
  width (image img) * height (image img) * 4 <= INT_MAX ->
  wl_cursor_image_get_buffer E theme img w1 = Ok ((b, img'), w2) ->
  log w2 = log w1
           ++ [EvShmPoolCreateBuffer (pool (theme_pool theme)) (offset img)
                 (width (image img)) (height (image img))
                 (4 * width (image img)) WL_SHM_FORMAT_ARGB8888 b]
  /\ 0 <= offset img
  /\ offset img + 4 * width (image img) * height (image img)
     <= used (theme_pool theme)
  /\ used (theme_pool theme) <= size (theme_pool theme).
Proof.
  intros Hload Hc Himg Hw Hh Hfit Hget.
  pose proof (wl_cursor_theme_load_no_buffers _ _ _ _ _ _ Hload) as Hnull.
  assert (Hbuf : buffer img = NULL).
  { rewrite Forall_forall in Hnull. apply Hnull.
    unfold theme_images. apply in_flat_map. exists (Some c). auto. }
  apply wl_cursor_theme_load_loaded in Hload.
  destruct Hload
    as (p & tn & w3 & theme1 & w4 & _ & Hinv1 & _ & _ & _ & Hend).
  assert (Hinv : theme_inv theme).
  { destruct (cursors theme1) as [| c1 cs] eqn:Hcs.
    - destruct Hinv1 as [Hpool Htiles]. rewrite Hcs in Htiles.
      cbn in Htiles.
      now destruct (load_default_theme_inv _ _ _ _ _ Hpool
                      (eq_sym Htiles) Hend).
    - now destruct Hend as [-> _]. }
  destruct Hinv as [[[Hused Hsize] _] Htiles].
  pose proof (image_range_listed _ _ _ Hc Himg) as Hin.
  destruct (tiles_in _ _ _ _ _ Htiles Hin) as (Hoff & _ & Hstop).
  unfold INT_MAX in Hfit.
  assert (Hsz : image_size img
                = width (image img) * height (image img) * 4).
  { unfold image_size. apply to_int_small. unfold INT_MAX. nia. }
  unfold wl_cursor_image_get_buffer in Hget. rewrite Hbuf in Hget.
  cbn [Z.eqb NULL] in Hget.
  unfold wl_shm_pool_create_buffer, bind, ask, emit, ret in Hget.
  cbn in Hget. injection Hget as <- _ <-. cbn [log].
  rewrite !to_int_small by (unfold INT_MAX; nia).
  split; [f_equal; f_equal; f_equal; lia |].
  split; [exact Hoff |]. split; [lia | lia].
Qed.

Lemma wl_cursor_image_get_buffer_in_pool_witness :
  exists theme w' c img b img' w2,
    wl_cursor_theme_load
      (with_files friendly [report "a" [10; 20]; report "b" [5]])
      (Some "t"%string) 1 empty_world = Ok (Some theme, w')
    /\ nth_error (cursors theme) 0 = Some (Some c)
    /\ nth_error (images c) 1 = Some img
    /\ wl_cursor_image_get_buffer
         (with_files friendly [report "a" [10; 20]; report "b" [5]])
         theme img w' = Ok ((b, img'), w2)
    /\ offset img = 4
    /\ offset img + 4 * width (image img) * height (image img)
       <= used (theme_pool theme).
Proof.
  eassert (Hr : wl_cursor_theme_load
                  (with_files friendly [report "a" [10; 20]; report "b" [5]])
                  (Some "t"%string) 1 empty_world = Ok (Some _, _))
    by (vm_compute; reflexivity).
  eexists _, _, _, _, _, _, _. split; [exact Hr |].
  split; [reflexivity |]. split; [reflexivity |].
  lazymatch goal with
  | |- wl_cursor_image_get_buffer ?E ?theme ?img ?w1 = _ /\ _ =>
      eassert (Hget : wl_cursor_image_get_buffer E theme img w1
                      = Ok ((_, _), _))
        by (vm_compute; reflexivity)
  end.
  split; [exact Hget |]. split; [reflexivity |].
  refine (proj1 (proj2 (proj2
            (wl_cursor_image_get_buffer_in_pool _ _ _ _ _ _ _ _ _ _ _ _
               Hr _ _ _ _ _ Hget)))).
  - left. reflexivity.
  - right. left. reflexivity.
  - cbn. lia.
  - cbn. lia.
  - unfold INT_MAX. cbn. lia.
Defined.
